(** * Epsilon-Intersection: bounding volumes of [src/src/3dtypes.cpp]

    A shallow embedding of the sphere constructors, the minimal bounding
    sphere engine, the frustum builder and the extreme point-set reducer
    [convexSet], with the properties of the specification stated over it.

    Layout:
    - [Scalar]: the arithmetic the code uses on [float], as a class; the
      instance [binary32] is IEEE 754 single precision (round to nearest
      even), built on the specification floats of the standard library.
    - [Vec3] and the vector algebra of [vector.hpp].
    - spheres of two, three and four points, the linked point list and
      [minimalBoundingSphere], [Sphere_points].
    - [FastFrustum_of].
    - [convexSet], split into its two loop nests.
    - theorems. *)

From Stdlib Require Import ZArith Lia Bool List.
From Stdlib Require Import Floats.SpecFloat.
From stdpp Require Import base list.

Local Open Scope Z_scope.

(** ** Machine integers *)

(** [uint32] values are kept in [Z]; arithmetic wraps modulo [2^32]. *)
Definition u32 (z : Z) : Z := z mod 4294967296.

(** Conversion of a [uint32] to [int] (two's complement, as every target of
    the library does it). *)
Definition int_of_u32 (z : Z) : Z :=
  if z <? 2147483648 then z else z - 4294967296.

(** ** Outcomes

    A run ends with a value, or stops at a failed assertion or at an access
    outside an array; [OutOfFuel] is the answer of a model whose recursion
    budget was too small, and is shown never to be the answer of the entry
    points. *)
Inductive fault : Type :=
| AssertFailed
| OutOfBounds
| Indeterminate.

Inductive outcome (A : Type) : Type :=
| Ok (a : A)
| Fault (f : fault)
| OutOfFuel.
Arguments Ok {A} a.
Arguments Fault {A} f.
Arguments OutOfFuel {A}.

Definition obind {A B : Type} (m : outcome A) (k : A -> outcome B) : outcome B :=
  match m with
  | Ok a => k a
  | Fault f => Fault f
  | OutOfFuel => OutOfFuel
  end.

Notation "x <- m ;; k" := (obind m (fun x => k))
  (at level 100, m at next level, right associativity).

(** Modelled from the spec: [eiAssert], whose macro is defined outside the
    sources at hand. A violated precondition fails fast with an assertion that
    aborts the call. [eiAssertWeak] is given the same meaning. *)
Definition eiAssert (c : bool) : outcome unit :=
  if c then Ok tt else Fault AssertFailed.

(** Array read and write; an index outside the array is a fault. *)
Definition rd {A : Type} (l : list A) (i : Z) : outcome A :=
  if i <? 0 then Fault OutOfBounds else
  match l !! Z.to_nat i with
  | Some a => Ok a
  | None => Fault OutOfBounds
  end.

Definition wr {A : Type} (l : list A) (i : Z) (a : A) : outcome (list A) :=
  if i <? 0 then Fault OutOfBounds else
  if (Z.to_nat i <? length l)%nat then Ok (<[Z.to_nat i := a]> l)
  else Fault OutOfBounds.

(** ** Scalars *)

(** The operations of [float] that the code uses. Comparisons are the C++
    operators: [a > b] is [s_ltb b a]. *)
Class Scalar (T : Type) : Type := {
  s_zero : T;
  s_half : T;
  s_one : T;
  s_two : T;
  s_add : T -> T -> T;
  s_sub : T -> T -> T;
  s_mul : T -> T -> T;
  s_div : T -> T -> T;
  s_neg : T -> T;
  s_abs : T -> T;
  s_sqrt : T -> T;
  s_ltb : T -> T -> bool;
  s_leb : T -> T -> bool
}.

Declare Scope scalar_scope.
Delimit Scope scalar_scope with sc.
Infix "+" := s_add : scalar_scope.
Infix "-" := s_sub : scalar_scope.
Infix "*" := s_mul : scalar_scope.
Infix "/" := s_div : scalar_scope.
Notation "- x" := (s_neg x) : scalar_scope.
Infix "<?" := s_ltb : scalar_scope.
Infix "<=?" := s_leb : scalar_scope.
Notation "a >? b" := (s_ltb b a) : scalar_scope.

(** IEEE 754 single precision: 24 bits of precision, exponents below 128. *)
Module B32.
Definition prec : Z := 24.
Definition emax : Z := 128.
Definition t : Type := spec_float.
(** [of_Z z] is the float nearest to the integer [z]. *)
Definition of_Z (z : Z) : t := binary_normalize prec emax z 0 false.
(** [of_dyadic m k] is the float nearest to [m / 2^k]. *)
Definition of_dyadic (m : Z) (k : Z) : t := binary_normalize prec emax m (- k) false.
End B32.

#[export] Instance binary32 : Scalar B32.t := {
  s_zero := S754_zero false;
  s_half := B32.of_dyadic 1 1;
  s_one := B32.of_Z 1;
  s_two := B32.of_Z 2;
  s_add := SFadd B32.prec B32.emax;
  s_sub := SFsub B32.prec B32.emax;
  s_mul := SFmul B32.prec B32.emax;
  s_div := SFdiv B32.prec B32.emax;
  s_neg := SFopp;
  s_abs := SFabs;
  s_sqrt := SFsqrt B32.prec B32.emax;
  s_ltb := SFltb;
  s_leb := SFleb
}.

(** ** Vectors *)

Section Geometry.
Context {T : Type} `{Scalar T}.
Local Open Scope scalar_scope.

Record Vec3 : Type := mkVec3 { vx : T; vy : T; vz : T }.

(** Modelled from the spec: the vector algebra of [vector.hpp] (component-wise
    sum, difference and scaling, dot and cross product, squared length,
    length, normalisation), which is not among the sources at hand. Sums are
    taken left to right. *)
Definition vadd (a b : Vec3) : Vec3 :=
  mkVec3 (vx a + vx b) (vy a + vy b) (vz a + vz b).
Definition vsub (a b : Vec3) : Vec3 :=
  mkVec3 (vx a - vx b) (vy a - vy b) (vz a - vz b).
Definition vscale (a : Vec3) (s : T) : Vec3 :=
  mkVec3 (vx a * s) (vy a * s) (vz a * s).
Definition scalev (s : T) (a : Vec3) : Vec3 :=
  mkVec3 (s * vx a) (s * vy a) (s * vz a).
Definition vdivs (a : Vec3) (s : T) : Vec3 :=
  mkVec3 (vx a / s) (vy a / s) (vz a / s).
Definition dot (a b : Vec3) : T :=
  vx a * vx b + vy a * vy b + vz a * vz b.
Definition cross (a b : Vec3) : Vec3 :=
  mkVec3 (vy a * vz b - vz a * vy b)
         (vz a * vx b - vx a * vz b)
         (vx a * vy b - vy a * vx b).
Definition lensq (a : Vec3) : T := dot a a.
Definition len (a : Vec3) : T := s_sqrt (lensq a).
Definition normalize (a : Vec3) : Vec3 := vdivs a (len a).

(** Modelled from the spec: the determinant of the 3x3 matrix with rows
    [r0], [r1], [r2] ([vector.hpp] is not among the sources at hand). *)
Definition determinant (r0 r1 r2 : Vec3) : T :=
  vx r0 * vy r1 * vz r2 + vy r0 * vz r1 * vx r2 + vz r0 * vx r1 * vy r2
  - vz r0 * vy r1 * vx r2 - vy r0 * vx r1 * vz r2 - vx r0 * vz r1 * vy r2.

(** ** Spheres *)

Record Sphere : Type := mkSphere { center : Vec3; radius : T }.

(** Modelled from the spec: [Sphere(p0, p1)], inline in a file that is not
    among the sources at hand: midpoint center, radius half the distance. *)
Definition Sphere_2pt (p0 p1 : Vec3) : Sphere :=
  mkSphere (vscale (vadd p0 p1) s_half) (len (vsub p0 p1) * s_half).

(** [Sphere::Sphere(_p0, _p1, _p2)] *)
Definition Sphere_3pt (p0 p1 p2 : Vec3) : Sphere :=
  let c := vsub p0 p1 in let csq := lensq c in
  let a := vsub p1 p2 in let asq := lensq a in
  let b := vsub p2 p0 in let bsq := lensq b in
  if csq + bsq <=? asq then Sphere_2pt p1 p2
  else if asq + bsq <=? csq then Sphere_2pt p1 p0
  else if asq + csq <=? bsq then Sphere_2pt p2 p0
  else
    let area2Sq := s_two * lensq (cross a c) in
    mkSphere
      (vadd (vadd (vscale p0 (- dot c b * asq / area2Sq))
                  (vscale p1 (- dot c a * bsq / area2Sq)))
            (vscale p2 (- dot b a * csq / area2Sq)))
      (s_sqrt (asq * bsq * csq / (s_two * area2Sq))).

(** The test [lensq(q - center) > rsq] of the four-point constructor. *)
Definition outside (q : Vec3) (s : Sphere) (rsq : T) : bool :=
  lensq (vsub q (center s)) >? rsq.

(** The innermost block of the four-point constructor: the sphere through
    all four points, from the determinant of the matrix of [p1], [p2], [p3]. *)
Definition circumsphere_4pt (p0 p1 p2 p3 : Vec3) : Sphere :=
  let a := vsub p1 p0 in
  let b := vsub p2 p0 in
  let c := vsub p3 p0 in
  let denominator := s_half / determinant p1 p2 p3 in
  let o := vscale (vadd (vadd (scalev (lensq c) (cross a b))
                              (scalev (lensq b) (cross c a)))
                        (scalev (lensq a) (cross b c)))
                  denominator in
  mkSphere (vadd p0 o) (len o).

(** [Sphere::Sphere(_p0, _p1, _p2, _p3)]; [rsq] is computed once, from the
    first sphere. *)
Definition Sphere_4pt (p0 p1 p2 p3 : Vec3) : Sphere :=
  let s1 := Sphere_3pt p1 p2 p3 in
  let rsq := radius s1 * radius s1 in
  if outside p3 s1 rsq then
    let s2 := Sphere_3pt p0 p1 p3 in
    if outside p2 s2 rsq then
      let s3 := Sphere_3pt p0 p2 p3 in
      if outside p1 s3 rsq then
        let s4 := Sphere_3pt p1 p2 p3 in
        if outside p0 s4 rsq then circumsphere_4pt p0 p1 p2 p3
        else s4
      else s3
    else s2
  else s1.

(** [q] is in the sphere [s]: its squared distance to the center does not
    exceed the squared radius. *)
Definition contains (s : Sphere) (q : Vec3) : bool :=
  negb (outside q s (radius s * radius s)).

(** The four-point solver as the specification words it: in the order
    (p1,p2,p3), (p0,p1,p3), (p0,p2,p3), (p1,p2,p3), the first sphere of three
    points that contains the point left out is the answer; the sphere
    through all four otherwise. *)
Definition sphereOf4_spec (p0 p1 p2 p3 : Vec3) : Sphere :=
  let s1 := Sphere_3pt p1 p2 p3 in
  if contains s1 p0 then s1 else
  let s2 := Sphere_3pt p0 p1 p3 in
  if contains s2 p2 then s2 else
  let s3 := Sphere_3pt p0 p2 p3 in
  if contains s3 p1 then s3 else
  let s4 := Sphere_3pt p1 p2 p3 in
  if contains s4 p0 then s4 else circumsphere_4pt p0 p1 p2 p3.

End Geometry.
Arguments Vec3 T : clear implicits.
Arguments Sphere T : clear implicits.

(** ** The minimal bounding sphere engine *)

Section Welzl.
Context {T : Type} `{Scalar T}.
Local Open Scope scalar_scope.

(** [struct SingleLinkedPointList]; [next] is an [int], [-1] for the last
    element. *)
Record SingleLinkedPointList : Type := mkSLPL { p : Vec3 T; next : Z }.

(** [_points[i].next = v] *)
Definition set_next (l : list SingleLinkedPointList) (i : Z) (v : Z)
  : outcome (list SingleLinkedPointList) :=
  e <- rd l i ;; wr l i (mkSLPL (p e) v).

(** The [switch] on [_boundarySet]: either the candidate sphere [mbs] (left)
    or, for four points, the value returned at once (right). No case assigns
    [mbs] for a boundary set outside 1..4; the model stops there. *)
Definition boundary_sphere (points : list SingleLinkedPointList)
    (first boundarySet : Z) : outcome (Sphere T + Sphere T) :=
  match boundarySet with
  | 1 =>
      e0 <- rd points first ;;
      Ok (inl (mkSphere (p e0) s_zero))
  | 2 =>
      e0 <- rd points first ;;
      e1 <- rd points (u32 (next e0)) ;;
      Ok (inl (Sphere_2pt (p e0) (p e1)))
  | 3 =>
      e0 <- rd points first ;;
      e1 <- rd points (u32 (next e0)) ;;
      e2 <- rd points (u32 (next e1)) ;;
      Ok (inl (Sphere_3pt (p e0) (p e1) (p e2)))
  | 4 =>
      e0 <- rd points first ;;
      e1 <- rd points (u32 (next e0)) ;;
      e2 <- rd points (u32 (next e1)) ;;
      e3 <- rd points (u32 (next e2)) ;;
      Ok (inr (Sphere_4pt (p e0) (p e1) (p e2) (p e3)))
  | _ => Fault Indeterminate
  end%Z.

(** [for(i = 0; i < _boundarySet; ++i) {last = it; it = _points[it].next;}],
    on the pair [(it, last)]; [k] counts the iterations left. *)
Fixpoint skip_boundary (points : list SingleLinkedPointList) (k : nat)
    (it last : Z) : outcome (Z * Z) :=
  match k with
  | O => Ok (it, last)
  | S k' =>
      e <- rd points it ;;
      skip_boundary points k' (u32 (next e)) it
  end.

(** The state of the scan: the list, [_first], [it], [last] and [mbs]. *)
Record scan : Type := mkScan {
  sc_points : list SingleLinkedPointList;
  sc_first : Z;
  sc_it : Z;
  sc_last : Z;
  sc_mbs : Sphere T
}.

(** The type of [minimalBoundingSphere]: list, [_first], [_n], [_boundarySet]
    to the list as the call leaves it and the sphere. *)
Definition mbs_fun : Type :=
  list SingleLinkedPointList -> Z -> Z -> Z ->
  outcome (list SingleLinkedPointList * Sphere T).

(** One turn of [for(i = _boundarySet; i < _n; ++i)]; [rec] is the function
    called at the recursive call site. *)
Definition scan_step (rec : mbs_fun) (boundarySet i : Z) (s : scan) : outcome scan :=
  e <- rd (sc_points s) (sc_it s) ;;
  let nxt := u32 (next e) in
  _ <- eiAssert (negb (sc_it s =? 4294967295)%Z) ;;
  if lensq (vsub (center (sc_mbs s)) (p e)) >? radius (sc_mbs s) * radius (sc_mbs s)
  then
    (* move to front *)
    pts1 <- set_next (sc_points s) (sc_last s) (next e) ;;
    pts2 <- set_next pts1 (sc_it s) (int_of_u32 (sc_first s)) ;;
    (* rebuild the first i elements *)
    r <- rec pts2 (sc_it s) i (u32 (boundarySet + 1)) ;;
    Ok (mkScan (fst r) (sc_it s) nxt (sc_it s) (snd r))
  else
    Ok (mkScan (sc_points s) (sc_first s) nxt (sc_it s) (sc_mbs s)).

Fixpoint scan_loop (rec : mbs_fun) (boundarySet : Z) (k : nat) (i : Z) (s : scan)
  : outcome scan :=
  match k with
  | O => Ok s
  | S k' =>
      s' <- scan_step rec boundarySet i s ;;
      scan_loop rec boundarySet k' (u32 (i + 1)) s'
  end.

(** The body of [minimalBoundingSphere], open in its recursive call. *)
Definition mbs_body (rec : mbs_fun) : mbs_fun :=
  fun points first n boundarySet =>
  _ <- eiAssert (0 <? boundarySet)%Z ;;
  b <- boundary_sphere points first boundarySet ;;
  match b with
  | inr s => Ok (points, s)
  | inl mbs =>
      il <- skip_boundary points (Z.to_nat boundarySet) first first ;;
      s <- scan_loop rec boundarySet (Z.to_nat (n - boundarySet)) boundarySet
             (mkScan points first (fst il) (snd il) mbs) ;;
      Ok (sc_points s, sc_mbs s)
  end.

(** [minimalBoundingSphere], with a budget on the depth of the recursion. *)
Fixpoint minimalBoundingSphere (depth : nat) : mbs_fun :=
  match depth with
  | O => fun _ _ _ _ => OutOfFuel
  | S d => mbs_body (minimalBoundingSphere d)
  end.

(** The list built by [Sphere(const Vec3*, uint32)]: a new array whose
    element [i] holds a copy of [_points[i]] and the link [i+1]; [k] counts
    the elements left to build. *)
Fixpoint build_list (points : list (Vec3 T)) (k : nat) (i : Z)
  : outcome (list SingleLinkedPointList) :=
  match k with
  | O => Ok []
  | S k' =>
      q <- rd points i ;;
      tl <- build_list points k' (u32 (i + 1)) ;;
      Ok (mkSLPL q (int_of_u32 (u32 (i + 1))) :: tl)
  end.

(** [Sphere::Sphere(const Vec3* _points, uint32 _numPoints)]: the caller's
    buffer as the call leaves it, and the outcome. *)
Definition Sphere_points (points : list (Vec3 T)) (numPoints : Z)
  : list (Vec3 T) * outcome (Sphere T) :=
  (points,
   _ <- eiAssert (0 <? numPoints)%Z ;;
   l0 <- build_list points (Z.to_nat numPoints) 0 ;;
   l <- set_next l0 (u32 (numPoints - 1)) (-1) ;;
   r <- minimalBoundingSphere 4 l 0 numPoints 1 ;;
   Ok (snd r)).

End Welzl.
Arguments SingleLinkedPointList T : clear implicits.
Arguments scan T : clear implicits.
Arguments mbs_fun T : clear implicits.

(** ** Planes, double planes and the frustum *)

Section Frusta.
Context {T : Type} `{Scalar T}.
Local Open Scope scalar_scope.

(** [struct Plane]: [dot(n,x) + d = 0] for all points of the plane. *)
Record Plane : Type := mkPlane { pl_n : Vec3 T; pl_d : T }.

(** [struct DOP]: two parallel planes of normal [n]. *)
Record DOP : Type := mkDOP { dop_n : Vec3 T; dop_d0 : T; dop_d1 : T }.

(** Modelled from the spec: [Plane(_normal, _support)], declared in the header
    and defined in an inline file that is not among the sources at hand: the
    plane of that normal through the support point. *)
Definition Plane_ns (normal support : Vec3 T) : Plane :=
  mkPlane normal (- dot normal support).

(** Modelled from the spec: [Plane(_v0, _v1, _v2)], defined in the same
    missing file: the normal is that of the triangle (right-handed for
    counter-clockwise vertices). *)
Definition Plane_3pt (v0 v1 v2 : Vec3 T) : Plane :=
  let n := normalize (cross (vsub v1 v0) (vsub v2 v0)) in
  mkPlane n (- dot n v0).

(** Modelled from the spec: [DOP(_normal, _support0, _support1)], defined in
    the same missing file: the two negated distances [-dot(_normal, _support)],
    kept with [d0 >= d1] as the header requires. *)
Definition DOP_nss (normal support0 support1 : Vec3 T) : DOP :=
  let d0 := - dot normal support0 in
  let d1 := - dot normal support1 in
  if d0 <? d1 then mkDOP normal d1 d0 else mkDOP normal d0 d1.

(** The signed distance of a point to a plane. *)
Definition plane_dist (pl : Plane) (x : Vec3 T) : T := dot (pl_n pl) x + pl_d pl.

Record Frustum : Type := mkFrustum {
  fr_apex : Vec3 T;
  fr_up : Vec3 T;
  fr_direction : Vec3 T;
  fr_l : T; fr_r : T;
  fr_b : T; fr_t : T;
  fr_n : T; fr_f : T
}.

(** [struct FastFrustum]; the vertices in the order nlb, nlt, nrb, nrt, flb,
    flt, frb, frt. *)
Record FastFrustum : Type := mkFastFrustum {
  ff_nf : DOP;
  ff_l : Plane;
  ff_r : Plane;
  ff_b : Plane;
  ff_t : Plane;
  ff_vertices : list (Vec3 T)
}.

(** [FastFrustum::FastFrustum(const Frustum&)] *)
Definition FastFrustum_of (fr : Frustum) : FastFrustum :=
  let far := vadd (scalev (fr_f fr) (fr_direction fr)) (fr_apex fr) in
  let near := vadd (scalev (fr_n fr) (fr_direction fr)) (fr_apex fr) in
  let xAxis := cross (fr_up fr) (fr_direction fr) in
  let bottom := scalev (fr_b fr) (fr_up fr) in
  let top := scalev (fr_t fr) (fr_up fr) in
  let left := scalev (fr_l fr) xAxis in
  let right := scalev (fr_r fr) xAxis in
  let fton := fr_n fr / fr_f fr in
  let v0 := vadd near (vscale (vadd left bottom) fton) in
  let v1 := vadd near (vscale (vadd left top) fton) in
  let v2 := vadd near (vscale (vadd right bottom) fton) in
  let v3 := vadd near (vscale (vadd right top) fton) in
  let v4 := vadd (vadd far left) bottom in
  let v5 := vadd (vadd far left) top in
  let v6 := vadd (vadd far right) bottom in
  let v7 := vadd (vadd far right) top in
  mkFastFrustum
    (DOP_nss (fr_direction fr) near far)
    (Plane_ns (normalize (cross (fr_up fr) (vsub v4 (fr_apex fr)))) v4)
    (Plane_ns (normalize (cross (vsub v7 (fr_apex fr)) (fr_up fr))) v7)
    (Plane_ns (normalize (cross (vsub v4 (fr_apex fr)) xAxis)) v4)
    (Plane_ns (normalize (cross xAxis (vsub v7 (fr_apex fr)))) v7)
    [v0; v1; v2; v3; v4; v5; v6; v7].

End Frusta.
Arguments Plane T : clear implicits.
Arguments DOP T : clear implicits.
Arguments Frustum T : clear implicits.
Arguments FastFrustum T : clear implicits.

(** ** The extreme point-set reducer *)

Section Reducer.
Context {T : Type} `{Scalar T}.
Local Open Scope scalar_scope.

(** Modelled from the spec: [distance(point, Segment)] of
    [3dintersection.hpp], which is not among the sources at hand: the distance
    of the point to the nearest point of the segment from [a] to [b]. *)
Definition distance_seg (pt a b : Vec3 T) : T :=
  let u := vsub b a in
  let w := vsub pt a in
  let r := dot u w / dot u u in
  let s := if r <? s_zero then s_zero else if s_one <? r then s_one else r in
  len (vsub (vscale u s) w).

(** The test of the first loop nest: [lensq(_points[j] - _points[i]) <= tSq]. *)
Definition near_dup (tSq : T) (pi pj : Vec3 T) : bool :=
  lensq (vsub pj pi) <=? tSq.

(** The inner loop of the search for duplicates, from [j] on. The bound
    [_numPoints] moves, so the loop runs on a budget of turns. *)
Fixpoint dedup_inner (fuel : nat) (tSq : T) (points : list (Vec3 T)) (i j n : Z)
  : outcome (list (Vec3 T) * Z) :=
  match fuel with
  | O => OutOfFuel
  | S fuel' =>
      if (j <? n)%Z then
        pj <- rd points j ;;
        pi <- rd points i ;;
        if near_dup tSq pi pj then
          (* _points[j--] = _points[--_numPoints]; then ++j *)
          let n' := u32 (n - 1) in
          pl <- rd points n' ;;
          points' <- wr points j pl ;;
          dedup_inner fuel' tSq points' i (u32 (u32 (j - 1) + 1)) n'
        else
          dedup_inner fuel' tSq points i (u32 (j + 1)) n
      else Ok (points, n)
  end.

(** The outer loop of the search for duplicates, from [i] on. *)
Fixpoint dedup_outer (fuel : nat) (tSq : T) (points : list (Vec3 T)) (i n : Z)
  : outcome (list (Vec3 T) * Z) :=
  match fuel with
  | O => OutOfFuel
  | S fuel' =>
      if (i <? n)%Z then
        r <- dedup_inner (S (Z.to_nat n)) tSq points i (u32 (i + 1)) n ;;
        dedup_outer fuel' tSq (fst r) (u32 (i + 1)) (snd r)
      else Ok (points, n)
  end.

(** The first loop nest of [convexSet]. *)
Definition dedup (tSq : T) (points : list (Vec3 T)) (numPoints : Z)
  : outcome (list (Vec3 T) * Z) :=
  dedup_outer (S (Z.to_nat numPoints)) tSq points 0 numPoints.

(** The locals of the search for a separating plane: [extrema], [p], [d],
    [ne] and [maySeparate]. [extrema] and [p] start indeterminate in the code
    and are written before they are read; the model starts them at zero. *)
Record sep : Type := mkSep {
  extrema0 : Vec3 T;
  extrema1 : Vec3 T;
  extrema2 : Vec3 T;
  sep_p : Plane T;
  sep_d : T;
  ne : Z;
  maySeparate : bool
}.

Definition vzero : Vec3 T := mkVec3 s_zero s_zero s_zero.

Definition sep_init : sep :=
  mkSep vzero vzero vzero (mkPlane vzero s_zero) s_zero 0 true.

(** The [switch(ne)] for the point [pj = _points[j]], [pi = _points[i]]. *)
Definition sep_case (threshold : T) (pi pj : Vec3 T) (s : sep) : sep :=
  match ne s with
  | 0%Z =>
      mkSep pj (extrema1 s) (extrema2 s) (sep_p s) (sep_d s) (u32 (ne s + 1))
            (maySeparate s)
  | 1%Z =>
      mkSep (extrema0 s) pj (extrema2 s) (sep_p s) (sep_d s) (u32 (ne s + 1))
            (if distance_seg pi (extrema0 s) pj <=? threshold then false
             else maySeparate s)
  | 2%Z =>
      let pl := Plane_3pt (extrema0 s) (extrema1 s) pj in
      let d := dot pi (pl_n pl) + pl_d pl in
      mkSep (extrema0 s) (extrema1 s) pj pl d (u32 (ne s + 1))
            (if s_abs d <=? threshold then false else maySeparate s)
  | _ =>
      let dj := dot pj (pl_n (sep_p s)) + pl_d (sep_p s) in
      if dj * sep_d s >? s_zero then
        let p1 := Plane_3pt pj (extrema1 s) (extrema2 s) in
        let d1 := dot pi (pl_n p1) + pl_d p1 in
        let dj1 := dot (extrema0 s) (pl_n p1) + pl_d p1 in
        if d1 * dj1 <? s_zero then
          mkSep pj (extrema1 s) (extrema2 s) p1 d1 (ne s) (maySeparate s)
        else
          let p2 := Plane_3pt (extrema0 s) pj (extrema2 s) in
          let d2 := dot pi (pl_n p2) + pl_d p2 in
          let dj2 := dot (extrema1 s) (pl_n p2) + pl_d p2 in
          if d2 * dj2 <? s_zero then
            mkSep (extrema0 s) pj (extrema2 s) p2 d2 (ne s) (maySeparate s)
          else
            let p3 := Plane_3pt (extrema0 s) (extrema1 s) pj in
            let d3 := dot pi (pl_n p3) + pl_d p3 in
            let dj3 := dot (extrema2 s) (pl_n p3) + pl_d p3 in
            if d3 * dj3 <? s_zero then
              mkSep (extrema0 s) (extrema1 s) pj p3 d3 (ne s) (maySeparate s)
            else
              mkSep (extrema0 s) (extrema1 s) (extrema2 s) p3 d3 (ne s) false
      else s
  end.

(** [for(j = 0; j < _numPoints && maySeparate; ++j) if(i != j) ...], from [j]
    on; [k] counts the values of [j] left below [_numPoints]. *)
Fixpoint sep_loop (threshold : T) (points : list (Vec3 T)) (i : Z)
    (k : nat) (j : Z) (s : sep) : outcome sep :=
  match k with
  | O => Ok s
  | S k' =>
      if maySeparate s then
        if (i =? j)%Z then sep_loop threshold points i k' (u32 (j + 1)) s
        else
          pj <- rd points j ;;
          pi <- rd points i ;;
          sep_loop threshold points i k' (u32 (j + 1)) (sep_case threshold pi pj s)
      else Ok s
  end.

(** The second loop of [convexSet], from [i] on, on a budget of turns. *)
Fixpoint extreme_outer (fuel : nat) (threshold : T) (points : list (Vec3 T))
    (i n : Z) : outcome (list (Vec3 T) * Z) :=
  match fuel with
  | O => OutOfFuel
  | S fuel' =>
      if (i <? n)%Z then
        s <- sep_loop threshold points i (Z.to_nat n) 0 sep_init ;;
        if negb (maySeparate s) then
          (* _points[i--] = _points[--_numPoints]; then ++i *)
          let n' := u32 (n - 1) in
          pl <- rd points n' ;;
          points' <- wr points i pl ;;
          extreme_outer fuel' threshold points' (u32 (u32 (i - 1) + 1)) n'
        else
          extreme_outer fuel' threshold points (u32 (i + 1)) n
      else Ok (points, n)
  end.

(** [convexSet(_points, _numPoints, _threshold)]: the buffer as the call
    leaves it, and the returned count. *)
Definition convexSet (points : list (Vec3 T)) (numPoints : Z) (threshold : T)
  : outcome (list (Vec3 T) * Z) :=
  let tSq := threshold * threshold in
  r <- dedup tSq points numPoints ;;
  extreme_outer (S (Z.to_nat (snd r))) threshold (fst r) 0 (snd r).

(** Two runs in a row, the second on the surviving prefix of the first:
    the two counts. *)
Definition convexSet_twice (points : list (Vec3 T)) (numPoints : Z) (threshold : T)
  : outcome (Z * Z) :=
  r1 <- convexSet points numPoints threshold ;;
  r2 <- convexSet (take (Z.to_nat (snd r1)) (fst r1)) (snd r1) threshold ;;
  Ok (snd r1, snd r2).

End Reducer.
Arguments sep T : clear implicits.

(** ** Axis-aligned boxes *)

Section Boxes.
Context {T : Type} `{Scalar T}.
Local Open Scope scalar_scope.

(** [struct Box] *)
Record Box : Type := mkBox { box_min : Vec3 T; box_max : Vec3 T }.

(** Modelled from the spec: [ei::min] and [ei::max] of [vector.hpp], which is
    not among the sources at hand: the smaller and the larger of two numbers
    ([x < y ? x : y], [x > y ? x : y]), per axis on vectors. *)
Definition smin (a b : T) : T := if a <? b then a else b.
Definition smax (a b : T) : T := if a >? b then a else b.
Definition vmin (a b : Vec3 T) : Vec3 T :=
  mkVec3 (smin (vx a) (vx b)) (smin (vy a) (vy b)) (smin (vz a) (vz b)).
Definition vmax (a b : Vec3 T) : Vec3 T :=
  mkVec3 (smax (vx a) (vx b)) (smax (vy a) (vy b)) (smax (vz a) (vz b)).

(** [for(i = 1; i < _numPoints; ++i, ++_points)] of [Box(points, n)], from
    [i] on, on the pair [(min, max)]; [k] counts the turns left. *)
Fixpoint box_loop (points : list (Vec3 T)) (k : nat) (i : Z)
    (mn mx : Vec3 T) : outcome (Vec3 T * Vec3 T) :=
  match k with
  | O => Ok (mn, mx)
  | S k' =>
      q <- rd points i ;;
      box_loop points k' (u32 (i + 1)) (vmin mn q) (vmax mx q)
  end.

(** [Box::Box(const Vec3* _points, uint32 _numPoints)] *)
Definition Box_points (points : list (Vec3 T)) (numPoints : Z) : outcome Box :=
  _ <- eiAssert (0 <? numPoints)%Z ;;
  p0 <- rd points 0 ;;
  r <- box_loop points (Z.to_nat (numPoints - 1)) 1 p0 p0 ;;
  Ok (mkBox (fst r) (snd r)).

End Boxes.
Arguments Box T : clear implicits.

(** ** Predicates of the statements *)

(** A run that ended, with a value or with a fault. *)
Definition ended {A : Type} (o : outcome A) : bool :=
  match o with
  | OutOfFuel => false
  | _ => true
  end.

Section Predicates.
Context {T : Type} `{Scalar T}.
Local Open Scope scalar_scope.

(** A function on the working list that leaves its point fields as they
    are. *)
Definition keeps_points (f : mbs_fun T) : Prop :=
  forall l first n b l' s, f l first n b = Ok (l', s) -> p <$> l' = p <$> l.

(** The buffer [pts] has the length of [orig], the count [n] does not exceed
    [n0], and each of the first [n] entries of [pts] is one of the first [n0]
    entries of [orig]. *)
Definition drawn_from (orig : list (Vec3 T)) (n0 : Z)
    (pts : list (Vec3 T)) (n : Z) : Prop :=
  length pts = length orig /\ (0 <= n <= n0)%Z /\
  forall (k : nat) (q : Vec3 T), (k < Z.to_nat n)%nat -> pts !! k = Some q ->
    exists m : nat, (m < Z.to_nat n0)%nat /\ orig !! m = Some q.

(** Row [i] of the search for duplicates accepts none of the entries
    [lo..hi-1]. *)
Definition row_clear (tSq : T) (pts : list (Vec3 T)) (i lo hi : nat) : Prop :=
  forall (j : nat) (pi pj : Vec3 T), (lo <= j < hi)%nat ->
    pts !! i = Some pi -> pts !! j = Some pj -> near_dup tSq pi pj = false.

(** The point [v] is on the plane [pl], up to the tolerance [tol]. *)
Definition on_plane (tol : T) (pl : Plane T) (v : Vec3 T) : bool :=
  s_abs (plane_dist pl v) <=? tol.

(** The two planes of a double plane. *)
Definition dop_first (dp : DOP T) : Plane T := mkPlane (dop_n dp) (dop_d0 dp).
Definition dop_second (dp : DOP T) : Plane T := mkPlane (dop_n dp) (dop_d1 dp).

(** For each vertex of a fast frustum, in the order nlb, nlt, nrb, nrt, flb,
    flt, frb, frt, the planes it is a corner of. The near plane is the first
    plane of [nf], the far plane the second. *)
Definition vertex_planes (ff : FastFrustum T) : list (list (Plane T)) :=
  let near := dop_first (ff_nf ff) in
  let far := dop_second (ff_nf ff) in
  [ [near; ff_l ff; ff_b ff]; [near; ff_l ff; ff_t ff];
    [near; ff_r ff; ff_b ff]; [near; ff_r ff; ff_t ff];
    [far; ff_l ff; ff_b ff]; [far; ff_l ff; ff_t ff];
    [far; ff_r ff; ff_b ff]; [far; ff_r ff; ff_t ff] ].

(** Every vertex is on each of its planes. *)
Definition vertices_on_planes (tol : T) (ff : FastFrustum T) : bool :=
  (length (ff_vertices ff) =? 8)%nat &&
  forallb (fun vp => forallb (fun pl => on_plane tol pl (fst vp)) (snd vp))
          (zip (ff_vertices ff) (vertex_planes ff)).

End Predicates.

(** ** Concrete inputs in single precision *)

Module Inputs.

Definition vi (x y z : Z) : Vec3 B32.t :=
  mkVec3 (B32.of_Z x) (B32.of_Z y) (B32.of_Z z).

(** A right triangle: the minimal sphere has center (2, 1.5, 0) and radius
    2.5. *)
Definition triangle : list (Vec3 B32.t) := [vi 0 0 0; vi 4 0 0; vi 4 3 0].

(** Four points in general position; the sphere of the last three has
    center (1,0,0) and radius 1. *)
Definition tetra_p0 : Vec3 B32.t := vi 1 0 9.
Definition tetra_p1 : Vec3 B32.t := vi 0 0 0.
Definition tetra_p2 : Vec3 B32.t := vi 2 0 0.
Definition tetra_p3 : Vec3 B32.t := vi 1 1 0.

(** The frustum of the consistency property. *)
Definition frustum : Frustum B32.t :=
  mkFrustum (vi 0 0 0) (vi 0 1 0) (vi 0 0 1)
            (B32.of_Z (-1)) (B32.of_Z 1) (B32.of_Z (-1)) (B32.of_Z 1)
            (B32.of_Z 1) (B32.of_Z 2).

(** The centroid of eight vertices. *)
Definition centroid8 (vs : list (Vec3 B32.t)) : Vec3 B32.t :=
  vdivs (foldl vadd (vi 0 0 0) vs) (B32.of_Z 8).

(** The fast frustum built from [frustum], and the centroid of its
    vertices. *)
Definition fast : FastFrustum B32.t := FastFrustum_of frustum.
Definition fast_centroid : Vec3 B32.t := centroid8 (ff_vertices fast).

(** Five points, no two within distance 2 of each other. *)
Definition five : list (Vec3 B32.t) :=
  [vi 0 0 0; vi 4 4 1; vi 8 0 0; vi 0 8 0; vi 32 32 12].

(** Four points of which the first and the third are one unit apart. *)
Definition close_pair : list (Vec3 B32.t) :=
  [vi 0 0 0; vi 8 0 0; vi 1 0 0; vi 0 8 0].

End Inputs.

(** ** Oriented boxes from axis-aligned boxes *)

Section OrientedBoxes.
Context {T : Type} `{Scalar T}.
Local Open Scope scalar_scope.

(** Modelled from the spec: [Mat3x3] of [vector.hpp], which is not among the
    sources at hand, as its three rows, with the matrix-vector product and
    the absolute value per axis. *)
Record Mat3x3 : Type := mkMat3x3 { row0 : Vec3 T; row1 : Vec3 T; row2 : Vec3 T }.
Definition mat_vec (m : Mat3x3) (v : Vec3 T) : Vec3 T :=
  mkVec3 (dot (row0 m) v) (dot (row1 m) v) (dot (row2 m) v).
Definition vabs (v : Vec3 T) : Vec3 T :=
  mkVec3 (s_abs (vx v)) (s_abs (vy v)) (s_abs (vz v)).

(** [struct OBox]; [Q] is the type of quaternions, which is not among the
    sources at hand. *)
Record OBox (Q : Type) : Type := mkOBox {
  ob_center : Vec3 T;
  ob_sides : Vec3 T;
  ob_orientation : Q
}.
Arguments mkOBox {Q} _ _ _.
Arguments ob_center {Q} _.
Arguments ob_sides {Q} _.
Arguments ob_orientation {Q} _.

(** The body shared by [OBox(const Quaternion&, const Box&)] and
    [OBox(const Mat3x3&, const Box&)]: the side lengths, from the rotation
    matrix and the corner [bmin] relative to the center. *)
Definition box_sides (rotation : Mat3x3) (bmin : Vec3 T) : Vec3 T :=
  let sides := vabs (mat_vec rotation bmin) in
  let sides :=
    vmax sides (vabs (mat_vec rotation (mkVec3 (vx bmin) (vy bmin) (- vz bmin)))) in
  let sides :=
    vmax sides (vabs (mat_vec rotation (mkVec3 (vx bmin) (- vy bmin) (vz bmin)))) in
  let sides :=
    vmax sides (vabs (mat_vec rotation (mkVec3 (vx bmin) (- vy bmin) (- vz bmin)))) in
  vscale sides s_two.

(** [OBox::OBox(const Quaternion& _orientation, const Box& _box)]; [to_mat]
    is the conversion [Mat3x3(_orientation)], taken as a parameter. *)
Definition OBox_quat_box {Q : Type} (to_mat : Q -> Mat3x3) (orientation : Q)
    (box : Box T) : OBox Q :=
  let center := vscale (vadd (box_min box) (box_max box)) s_half in
  mkOBox center (box_sides (to_mat orientation) (vsub (box_min box) center))
         orientation.

(** [OBox::OBox(const Mat3x3& _orientation, const Box& _box)]; [to_quat] is
    the conversion of the matrix to the quaternion that is stored, taken as a
    parameter. *)
Definition OBox_mat_box {Q : Type} (to_quat : Mat3x3 -> Q) (orientation : Mat3x3)
    (box : Box T) : OBox Q :=
  let center := vscale (vadd (box_min box) (box_max box)) s_half in
  mkOBox center (box_sides orientation (vsub (box_min box) center))
         (to_quat orientation).

End OrientedBoxes.
Arguments Mat3x3 T : clear implicits.
Arguments OBox T Q : clear implicits.
Arguments mkOBox {T Q} _ _ _.
Arguments ob_center {T Q} _.
Arguments ob_sides {T Q} _.
Arguments ob_orientation {T Q} _.

(** ** More predicates *)

Section MorePredicates.
Context {T : Type} `{Scalar T}.

(** The test of the scan of [minimalBoundingSphere]:
    [lensq(mbs.center - q) > mbs.radius * mbs.radius]. *)
Definition beyond (s : Sphere T) (q : Vec3 T) : bool :=
  s_ltb (s_mul (radius s) (radius s)) (lensq (vsub (center s) q)).

(** [v] is the coordinate [sel] of one of the points [lo..hi-1]. *)
Definition picked (sel : Vec3 T -> T) (points : list (Vec3 T)) (lo hi : nat) (v : T)
  : Prop :=
  exists (j : nat) (q : Vec3 T),
    (lo <= j < hi)%nat /\ points !! j = Some q /\ v = sel q.

(** Each coordinate of [v] is that coordinate of one of the points
    [lo..hi-1]. *)
Definition all_picked (points : list (Vec3 T)) (lo hi : nat) (v : Vec3 T) : Prop :=
  picked vx points lo hi (vx v) /\ picked vy points lo hi (vy v) /\
  picked vz points lo hi (vz v).

(** The buffer [pts] with count [n] against the buffer [orig] with count
    [n0]: the length is kept, the entries from [n0] on are untouched, and the
    first [n] entries are, with multiplicity, among the first [n0] entries of
    [orig]. *)
Definition kept_from (orig : list (Vec3 T)) (n0 : Z) (pts : list (Vec3 T)) (n : Z)
  : Prop :=
  (0 <= n <= n0)%Z /\ (n0 < 4294967296)%Z /\ (Z.to_nat n0 <= length orig)%nat /\
  length pts = length orig /\
  (forall k : nat, (Z.to_nat n0 <= k)%nat -> pts !! k = orig !! k) /\
  take (Z.to_nat n) pts ⊆+ take (Z.to_nat n0) orig.

(** The rows before [i] of the search for duplicates accept nothing up to
    [n]. *)
Definition rows_clear (tSq : T) (pts : list (Vec3 T)) (i n : nat) : Prop :=
  forall i' : nat, (i' < i)%nat -> row_clear tSq pts i' (S i') n.

End MorePredicates.

(** *** Single precision numbers *)

(** [x] is a number: not a NaN. *)
Definition is_number (x : spec_float) : bool :=
  match x with S754_nan => false | _ => true end.

(** [x] is not negative: a NaN, or a number that compares [>= 0]. *)
Definition not_negative (x : spec_float) : bool :=
  match x with S754_nan => true | _ => SFleb (S754_zero false) x end.

(** The sign bit of [x] is clear, or [x] is a zero or a NaN. *)
Definition sign_clear (x : spec_float) : bool :=
  match x with
  | S754_nan | S754_zero _ => true
  | S754_infinity s | S754_finite s _ _ => negb s
  end.

(** The rank of a number in the order of [SFcompare]: its class and, among
    the finite numbers of one sign, exponent and mantissa. *)
Definition rank (a : spec_float) : Z * Z * Z :=
  match a with
  | S754_nan => (0, 0, 0)
  | S754_zero _ => (0, 0, 0)
  | S754_infinity true => (-2, 0, 0)
  | S754_infinity false => (2, 0, 0)
  | S754_finite true m e => (-1, - e, - Zpos m)
  | S754_finite false m e => (1, e, Zpos m)
  end.

Definition lex_le (x y : Z * Z * Z) : Prop :=
  let '(a1, b1, c1) := x in
  let '(a2, b2, c2) := y in
  a1 < a2 \/ (a1 = a2 /\ (b1 < b2 \/ (b1 = b2 /\ c1 <= c2))).

(** All three coordinates are numbers. *)
Definition v_number (a : Vec3 B32.t) : bool :=
  is_number (vx a) && is_number (vy a) && is_number (vz a).

(** [a <= b] on every axis. *)
Definition vle (a b : Vec3 B32.t) : bool :=
  SFleb (vx a) (vx b) && SFleb (vy a) (vy b) && SFleb (vz a) (vz b).

(** No coordinate is negative. *)
Definition v_not_negative (a : Vec3 B32.t) : bool :=
  not_negative (vx a) && not_negative (vy a) && not_negative (vz a).

(** A function of the engine whose spheres have a radius with a clear
    sign. *)
Definition radius_ok (f : mbs_fun B32.t) : Prop :=
  forall l first n b l' s, f l first n b = Ok (l', s) -> sign_clear (radius s) = true.

(** Four points on a line, each outside the sphere of the two before it. *)
Module MoreInputs.
Definition chain : list (Vec3 B32.t) :=
  [Inputs.vi 0 0 0; Inputs.vi 1 0 0; Inputs.vi 3 0 0; Inputs.vi 7 0 0].
End MoreInputs.

(** * Properties *)

(** ** Machine integers and arrays *)

Lemma u32_small (z : Z) : 0 <= z < 4294967296 -> u32 z = z.
Proof. intros Hz. unfold u32. apply Z.mod_small. exact Hz. Qed.

(** [i--] followed by [++i] gives [i] back, also at [0]. *)
Lemma u32_dec_inc (z : Z) : 0 <= z < 4294967296 -> u32 (u32 (z - 1) + 1) = z.
Proof.
  intros Hz. unfold u32.
  destruct (Z.eq_dec z 0) as [->|Hnz].
  - reflexivity.
  - rewrite (Z.mod_small (z - 1)) by lia.
    replace (z - 1 + 1) with z by lia. apply Z.mod_small. exact Hz.
Qed.

Lemma rd_Some {A : Type} (l : list A) (i : Z) (a : A) :
  0 <= i -> l !! Z.to_nat i = Some a -> rd l i = Ok a.
Proof.
  intros Hi Hl. unfold rd.
  destruct (i <? 0) eqn:E; [apply Z.ltb_lt in E; lia|].
  rewrite Hl. reflexivity.
Qed.

Lemma rd_in_range {A : Type} (l : list A) (i : Z) :
  0 <= i -> (Z.to_nat i < length l)%nat ->
  exists a, rd l i = Ok a /\ l !! Z.to_nat i = Some a.
Proof.
  intros Hi Hlen.
  destruct (lookup_lt_is_Some_2 l (Z.to_nat i) Hlen) as [a Ha].
  exists a. split; [apply rd_Some; assumption | exact Ha].
Qed.

Lemma rd_Ok_inv {A : Type} (l : list A) (i : Z) (a : A) :
  rd l i = Ok a -> 0 <= i /\ l !! Z.to_nat i = Some a.
Proof.
  unfold rd. destruct (i <? 0) eqn:E; [discriminate|].
  apply Z.ltb_ge in E.
  destruct (l !! Z.to_nat i) as [b|] eqn:Hl; [|discriminate].
  intros [= ->]. split; [exact E | reflexivity].
Qed.

Lemma wr_in_range {A : Type} (l : list A) (i : Z) (a : A) :
  0 <= i -> (Z.to_nat i < length l)%nat ->
  wr l i a = Ok (<[Z.to_nat i := a]> l).
Proof.
  intros Hi Hlen. unfold wr.
  destruct (i <? 0) eqn:E; [apply Z.ltb_lt in E; lia|].
  destruct (Z.to_nat i <? length l)%nat eqn:E2; [reflexivity|].
  apply Nat.ltb_ge in E2. lia.
Qed.

Lemma wr_Ok_inv {A : Type} (l l' : list A) (i : Z) (a : A) :
  wr l i a = Ok l' ->
  0 <= i /\ (Z.to_nat i < length l)%nat /\ l' = <[Z.to_nat i := a]> l.
Proof.
  unfold wr. destruct (i <? 0) eqn:E; [discriminate|].
  apply Z.ltb_ge in E.
  destruct (Z.to_nat i <? length l)%nat eqn:E2; [|discriminate].
  apply Nat.ltb_lt in E2. intros [= <-]. auto.
Qed.

(** ** Runs that end *)

Lemma ended_bind {A B : Type} (m : outcome A) (k : A -> outcome B) :
  ended m = true -> (forall a, m = Ok a -> ended (k a) = true) ->
  ended (obind m k) = true.
Proof.
  destruct m as [a|f|]; simpl; intros Hm Hk;
    [apply Hk; reflexivity | reflexivity | discriminate].
Qed.

Lemma ended_rd {A : Type} (l : list A) (i : Z) : ended (rd l i) = true.
Proof.
  unfold rd. destruct (i <? 0); [reflexivity|].
  destruct (l !! Z.to_nat i); reflexivity.
Qed.

Lemma ended_wr {A : Type} (l : list A) (i : Z) (a : A) : ended (wr l i a) = true.
Proof.
  unfold wr. destruct (i <? 0); [reflexivity|].
  destruct (Z.to_nat i <? length l)%nat; reflexivity.
Qed.

Lemma ended_eiAssert (c : bool) : ended (eiAssert c) = true.
Proof. destruct c; reflexivity. Qed.

(** ** The minimal bounding sphere engine *)

Section WelzlFacts.
Context {T : Type} `{Scalar T}.

Lemma ended_set_next (l : list (SingleLinkedPointList T)) (i v : Z) :
  ended (set_next l i v) = true.
Proof.
  unfold set_next. apply ended_bind; [apply ended_rd|]. intros; apply ended_wr.
Qed.

Lemma ended_boundary_sphere (l : list (SingleLinkedPointList T)) (first b : Z) :
  ended (boundary_sphere l first b) = true.
Proof.
  unfold boundary_sphere.
  destruct b as [|[[|[]|]|[|[]|]|]|]; try reflexivity;
    repeat (apply ended_bind; [apply ended_rd | intros ? _]); reflexivity.
Qed.

Lemma ended_skip_boundary (l : list (SingleLinkedPointList T)) (k : nat) :
  forall it last, ended (skip_boundary l k it last) = true.
Proof.
  induction k as [|k IH]; intros it last; simpl; [reflexivity|].
  apply ended_bind; [apply ended_rd|]. intros; apply IH.
Qed.

Lemma ended_scan_step (rec : mbs_fun T) (b i : Z) (s : scan T) :
  (forall l f n, ended (rec l f n (u32 (b + 1))) = true) ->
  ended (scan_step rec b i s) = true.
Proof.
  intros Hrec. unfold scan_step.
  apply ended_bind; [apply ended_rd | intros e _].
  apply ended_bind; [apply ended_eiAssert | intros _ _].
  match goal with |- ended (if ?c then _ else _) = true => destruct c end;
    [|reflexivity].
  apply ended_bind; [apply ended_set_next | intros pts1 _].
  apply ended_bind; [apply ended_set_next | intros pts2 _].
  apply ended_bind; [apply Hrec | intros r _]. reflexivity.
Qed.

Lemma ended_scan_loop (rec : mbs_fun T) (b : Z) (k : nat) :
  (forall l f n, ended (rec l f n (u32 (b + 1))) = true) ->
  forall i s, ended (scan_loop rec b k i s) = true.
Proof.
  intros Hrec. induction k as [|k IH]; intros i s; simpl; [reflexivity|].
  apply ended_bind; [apply ended_scan_step; exact Hrec | intros; apply IH].
Qed.

(** The scan is entered for a boundary set of 1, 2 or 3 only. *)
Lemma boundary_sphere_inl (l : list (SingleLinkedPointList T)) (first b : Z)
    (m : Sphere T) :
  boundary_sphere l first b = Ok (inl m) -> 1 <= b <= 3.
Proof.
  unfold boundary_sphere.
  destruct b as [|[[|[]|]|[|[]|]|]|]; try discriminate; try lia.
  destruct (rd l first) as [e0| |]; cbn [obind]; try discriminate.
  destruct (rd l (u32 (next e0))) as [e1| |]; cbn [obind]; try discriminate.
  destruct (rd l (u32 (next e1))) as [e2| |]; cbn [obind]; try discriminate.
  destruct (rd l (u32 (next e2))) as [e3| |]; cbn [obind]; discriminate.
Qed.

(** With four boundary points the body does not look at [rec]. *)
Lemma mbs_body_4 (rec : mbs_fun T) (l : list (SingleLinkedPointList T)) (first n : Z) :
  mbs_body rec l first n 4 =
  (b <- boundary_sphere l first 4 ;;
   match b with inr s => Ok (l, s) | inl _ => Fault Indeterminate end).
Proof.
  unfold mbs_body. simpl eiAssert. cbn [obind].
  destruct (boundary_sphere l first 4) as [[m|s]| |] eqn:Hb; cbn [obind]; try reflexivity.
  apply boundary_sphere_inl in Hb. lia.
Qed.

(** The body calls [rec] at boundary set [_boundarySet + 1] only. *)
Lemma scan_step_ext (rec1 rec2 : mbs_fun T) (b i : Z) (s : scan T) :
  (forall l f n, rec1 l f n (u32 (b + 1)) = rec2 l f n (u32 (b + 1))) ->
  scan_step rec1 b i s = scan_step rec2 b i s.
Proof.
  intros Hrec. unfold scan_step.
  destruct (rd (sc_points s) (sc_it s)) as [e| |]; cbn [obind]; try reflexivity.
  destruct (eiAssert _); cbn [obind]; try reflexivity.
  match goal with |- (if ?c then _ else _) = _ => destruct c end; [|reflexivity].
  destruct (set_next _ _ _) as [pts1| |]; cbn [obind]; try reflexivity.
  destruct (set_next _ _ _) as [pts2| |]; cbn [obind]; try reflexivity.
  rewrite Hrec. reflexivity.
Qed.

Lemma scan_loop_ext (rec1 rec2 : mbs_fun T) (b : Z) (k : nat) :
  (forall l f n, rec1 l f n (u32 (b + 1)) = rec2 l f n (u32 (b + 1))) ->
  forall i s, scan_loop rec1 b k i s = scan_loop rec2 b k i s.
Proof.
  intros Hrec. induction k as [|k IH]; intros i s; simpl; [reflexivity|].
  rewrite (scan_step_ext rec1 rec2 b i s Hrec).
  destruct (scan_step rec2 b i s); cbn [obind]; try reflexivity. apply IH.
Qed.

Lemma mbs_body_ext (rec1 rec2 : mbs_fun T) (l : list (SingleLinkedPointList T))
    (first n b : Z) :
  (forall l' f' n', rec1 l' f' n' (u32 (b + 1)) = rec2 l' f' n' (u32 (b + 1))) ->
  mbs_body rec1 l first n b = mbs_body rec2 l first n b.
Proof.
  intros Hrec. unfold mbs_body.
  destruct (eiAssert _); cbn [obind]; try reflexivity.
  destruct (boundary_sphere l first b) as [[mbs|s]| |]; cbn [obind]; try reflexivity.
  destruct (skip_boundary _ _ _ _) as [il| |]; cbn [obind]; try reflexivity.
  rewrite (scan_loop_ext rec1 rec2 b _ Hrec). reflexivity.
Qed.

(** A depth of [5 - _boundarySet] is enough for the run to end. *)
Lemma mbs_ended (d : nat) :
  forall (l : list (SingleLinkedPointList T)) (first n b : Z),
    (1 <= d)%nat -> 4 - b < Z.of_nat d ->
    ended (minimalBoundingSphere d l first n b) = true.
Proof.
  induction d as [|d IH]; intros l first n b H1 Hd; [lia|].
  cbn [minimalBoundingSphere]. unfold mbs_body.
  apply ended_bind; [apply ended_eiAssert | intros _ _].
  apply ended_bind; [apply ended_boundary_sphere | intros [mbs|s] Hb]; [|reflexivity].
  apply boundary_sphere_inl in Hb.
  apply ended_bind; [apply ended_skip_boundary | intros il _].
  apply ended_bind; [|reflexivity].
  apply ended_scan_loop. intros l' f' n'.
  rewrite u32_small by lia. apply IH; lia.
Qed.

(** Beyond that depth the answer does not change. *)
Lemma mbs_depth_step (d : nat) :
  forall (l : list (SingleLinkedPointList T)) (first n b : Z),
    (1 <= d)%nat -> 4 - b < Z.of_nat d ->
    minimalBoundingSphere (S d) l first n b = minimalBoundingSphere d l first n b.
Proof.
  induction d as [|d IH]; intros l first n b H1 Hd; [lia|].
  change (mbs_body (minimalBoundingSphere (S d)) l first n b =
          mbs_body (minimalBoundingSphere d) l first n b).
  unfold mbs_body.
  destruct (eiAssert _); cbn [obind]; try reflexivity.
  destruct (boundary_sphere l first b) as [[mbs|s]| |] eqn:Hb; cbn [obind];
    try reflexivity.
  apply boundary_sphere_inl in Hb.
  destruct (skip_boundary _ _ _ _) as [il| |]; cbn [obind]; try reflexivity.
  rewrite (scan_loop_ext (minimalBoundingSphere (S d)) (minimalBoundingSphere d) b);
    [reflexivity|].
  intros l' f' n'. rewrite u32_small by lia. apply IH; lia.
Qed.

Lemma mbs_depth_irrelevant (k : nat) :
  forall (l : list (SingleLinkedPointList T)) (first n : Z),
    minimalBoundingSphere (k + 4) l first n 1 = minimalBoundingSphere 4 l first n 1.
Proof.
  induction k as [|k IH]; intros l first n; [reflexivity|].
  change (S k + 4)%nat with (S (k + 4)).
  rewrite mbs_depth_step by lia. apply IH.
Qed.

(** *** Only the links of the working list change *)

Lemma set_next_points (l l' : list (SingleLinkedPointList T)) (i v : Z) :
  set_next l i v = Ok l' -> p <$> l' = p <$> l.
Proof.
  unfold set_next. destruct (rd l i) as [e| |] eqn:Hrd; cbn [obind]; try discriminate.
  intros Hwr. apply rd_Ok_inv in Hrd as [_ Hl].
  apply wr_Ok_inv in Hwr as (_ & _ & ->).
  rewrite list_fmap_insert. cbn [p].
  apply list_insert_id. rewrite list_lookup_fmap, Hl. reflexivity.
Qed.

Lemma scan_step_points (rec : mbs_fun T) (b i : Z) (s s' : scan T) :
  keeps_points rec ->
  scan_step rec b i s = Ok s' -> p <$> sc_points s' = p <$> sc_points s.
Proof.
  intros Hrec. unfold scan_step.
  destruct (rd (sc_points s) (sc_it s)) as [e| |]; cbn [obind]; try discriminate.
  destruct (eiAssert _); cbn [obind]; try discriminate.
  match goal with |- (if ?c then _ else _) = _ -> _ => destruct c end.
  - destruct (set_next _ _ _) as [pts1| |] eqn:E1; cbn [obind]; try discriminate.
    destruct (set_next pts1 _ _) as [pts2| |] eqn:E2; cbn [obind]; try discriminate.
    destruct (rec _ _ _ _) as [[l' sph]| |] eqn:E3; cbn [obind]; try discriminate.
    intros [= <-]. cbn [sc_points fst].
    rewrite (Hrec _ _ _ _ _ _ E3), (set_next_points _ _ _ _ E2).
    apply (set_next_points _ _ _ _ E1).
  - intros [= <-]. reflexivity.
Qed.

Lemma scan_loop_points (rec : mbs_fun T) (b : Z) (k : nat) :
  keeps_points rec ->
  forall i s s', scan_loop rec b k i s = Ok s' ->
                 p <$> sc_points s' = p <$> sc_points s.
Proof.
  intros Hrec. induction k as [|k IH]; intros i s s'; simpl.
  - intros [= <-]. reflexivity.
  - destruct (scan_step rec b i s) as [s1| |] eqn:E; cbn [obind]; try discriminate.
    intros Hloop. rewrite (IH _ _ _ Hloop).
    apply (scan_step_points _ _ _ _ _ Hrec E).
Qed.

Lemma mbs_body_points (rec : mbs_fun T) :
  keeps_points rec -> keeps_points (mbs_body rec).
Proof.
  intros Hrec l first n b l' s. unfold mbs_body.
  destruct (eiAssert _); cbn [obind]; try discriminate.
  destruct (boundary_sphere l first b) as [[mbs|s0]| |]; cbn [obind]; try discriminate.
  - destruct (skip_boundary _ _ _ _) as [il| |]; cbn [obind]; try discriminate.
    destruct (scan_loop _ _ _ _ _) as [s1| |] eqn:E; cbn [obind]; try discriminate.
    intros [= <- <-]. apply (scan_loop_points _ _ _ Hrec _ _ _ E).
  - intros [= <- <-]. reflexivity.
Qed.

Lemma mbs_points (d : nat) : keeps_points (minimalBoundingSphere d).
Proof.
  induction d as [|d IH].
  - intros l first n b l' s. discriminate.
  - apply mbs_body_points. exact IH.
Qed.

(** The working list starts as a copy of the first [k] points from [i] on. *)
Lemma build_list_points (points : list (Vec3 T)) (k : nat) :
  forall (i : Z) (l : list (SingleLinkedPointList T)),
    0 <= i -> i + Z.of_nat k <= 4294967296 ->
    build_list points k i = Ok l ->
    p <$> l = take k (drop (Z.to_nat i) points).
Proof.
  induction k as [|k IH]; intros i l Hi Hik; simpl.
  - intros [= <-]. reflexivity.
  - destruct (rd points i) as [q| |] eqn:Hrd; cbn [obind]; try discriminate.
    destruct (build_list points k (u32 (i + 1))) as [tl| |] eqn:Htl; cbn [obind];
      try discriminate.
    intros [= <-]. apply rd_Ok_inv in Hrd as [_ Hq].
    rewrite fmap_cons. cbn [p].
    destruct k as [|k'].
    { simpl in Htl. injection Htl as <-. rewrite (drop_S _ _ _ Hq). reflexivity. }
    rewrite u32_small in Htl by lia.
    rewrite (IH (i + 1) tl) by (lia || exact Htl).
    rewrite (drop_S _ _ _ Hq). cbn [take].
    replace (Z.to_nat (i + 1)) with (S (Z.to_nat i)) by lia. reflexivity.
Qed.

Lemma ended_build_list (points : list (Vec3 T)) (k : nat) :
  forall i : Z, ended (build_list points k i) = true.
Proof.
  induction k as [|k IH]; intros i; simpl; [reflexivity|].
  apply ended_bind; [apply ended_rd | intros q _].
  apply ended_bind; [apply IH | intros tl _]. reflexivity.
Qed.

End WelzlFacts.

Section WelzlTheorems.
Context {T : Type} `{Scalar T}.

(** C8. In [minimalBoundingSphere], every recursive call is made with the
    boundary set one larger: the body depends on the function it calls only
    through its values at [_boundarySet + 1]. With a boundary set of 4 the
    body returns without calling it at all, so no call is made with more than
    four boundary points. Hence [Sphere(points, n)] ends for every buffer and
    count, with a sphere or with a fault, and a recursion depth of 4 is
    all it ever uses: a larger budget gives the same answer. *)
Theorem minimalBoundingSphere_terminates :
  (forall (rec1 rec2 : mbs_fun T) l first n b,
      (forall l' f' n', rec1 l' f' n' (u32 (b + 1)) = rec2 l' f' n' (u32 (b + 1))) ->
      mbs_body rec1 l first n b = mbs_body rec2 l first n b)
  /\ (forall (rec1 rec2 : mbs_fun T) l first n,
         mbs_body rec1 l first n 4 = mbs_body rec2 l first n 4)
  /\ (forall (points : list (Vec3 T)) (numPoints : Z),
         ended (snd (Sphere_points points numPoints)) = true)
  /\ (forall (k : nat) (l : list (SingleLinkedPointList T)) (first n : Z),
         minimalBoundingSphere (k + 4) l first n 1
         = minimalBoundingSphere 4 l first n 1).
Proof.
  split; [|split; [|split]].
  - intros rec1 rec2 l first n b Hrec. apply mbs_body_ext. exact Hrec.
  - intros rec1 rec2 l first n. rewrite !mbs_body_4. reflexivity.
  - intros points numPoints. unfold Sphere_points. cbn [snd].
    apply ended_bind; [apply ended_eiAssert | intros _ _].
    apply ended_bind; [apply ended_build_list | intros l0 _].
    apply ended_bind; [apply ended_set_next | intros l _].
    apply ended_bind; [apply mbs_ended; lia | intros r _]. reflexivity.
  - intros k l first n. apply mbs_depth_irrelevant.
Qed.

(** C9. [Sphere(points, 0)] stops at the assertion on [_numPoints > 0],
    whatever the buffer: the call is aborted and no sphere is returned. *)
Theorem Sphere_points_zero_asserts (points : list (Vec3 T)) :
  snd (Sphere_points points 0) = Fault AssertFailed.
Proof. reflexivity. Qed.

(** C3, as the code has it. [Sphere(points, n)] never writes to the caller's
    buffer, which is the same after the call as before. The engine works on a
    list of its own that holds a copy of the first [n] points, and it changes
    the links of that list only: the point fields stay where they are. *)
Theorem Sphere_points_leaves_buffer (points : list (Vec3 T)) (numPoints : Z) :
  fst (Sphere_points points numPoints) = points
  /\ (forall l, numPoints < 4294967296 ->
                build_list points (Z.to_nat numPoints) 0 = Ok l ->
                p <$> l = take (Z.to_nat numPoints) points)
  /\ (forall l l' first n b s,
         minimalBoundingSphere 4 l first n b = Ok (l', s) -> p <$> l' = p <$> l).
Proof.
  split; [reflexivity|]. split.
  - intros l Hn Hl. apply build_list_points in Hl; [exact Hl | lia | lia].
  - intros l l' first n b s Hrun. exact (mbs_points 4 l first n b l' s Hrun).
Qed.

End WelzlTheorems.

(** The first test of the four-point constructor does not read [p0]: when
    [p3] passes it, the sphere of (p1,p2,p3) is returned whatever [p0] is. *)
Lemma Sphere_4pt_first_test {T : Type} `{Scalar T} (p0 p1 p2 p3 : Vec3 T) :
  outside p3 (Sphere_3pt p1 p2 p3)
          (s_mul (radius (Sphere_3pt p1 p2 p3)) (radius (Sphere_3pt p1 p2 p3)))
  = false ->
  Sphere_4pt p0 p1 p2 p3 = Sphere_3pt p1 p2 p3.
Proof.
  intros Hin. unfold Sphere_4pt. cbn zeta. rewrite Hin. reflexivity.
Qed.

(** C3, as stated, does not hold: no buffer of two or more points comes back
    from [Sphere(points, n)] in another order, or changed at all. *)
Lemma caller_buffer_never_reordered :
  ~ exists points : list (Vec3 B32.t),
      (2 <= length points)%nat /\
      fst (Sphere_points points (Z.of_nat (length points))) <> points.
Proof.
  intros (points & _ & Hne). apply Hne. reflexivity.
Qed.

(** C1, on the right triangle (0,0,0), (4,0,0), (4,3,0): the call returns the
    sphere of center (4, 1.5, 0) and radius 1.5, the sphere of the last two
    points, and the first point is not in it (squared distance 18.25 against
    a squared radius of 2.25). *)
Theorem Sphere_points_misses_input_point :
  snd (Sphere_points Inputs.triangle 3)
  = Ok (mkSphere (mkVec3 (B32.of_Z 4) (B32.of_dyadic 3 1) (B32.of_Z 0))
                 (B32.of_dyadic 3 1))
  /\ contains (mkSphere (mkVec3 (B32.of_Z 4) (B32.of_dyadic 3 1) (B32.of_Z 0))
                        (B32.of_dyadic 3 1))
              (Inputs.vi 0 0 0) = false
  /\ lensq (vsub (Inputs.vi 0 0 0)
                 (mkVec3 (B32.of_Z 4) (B32.of_dyadic 3 1) (B32.of_Z 0)))
     = B32.of_dyadic 73 2.
Proof. repeat split; vm_compute; reflexivity. Qed.

(** C2, on p0 = (1,0,9), p1 = (0,0,0), p2 = (2,0,0), p3 = (1,1,0): the
    constructor returns the sphere of (p1,p2,p3), of center (1,0,0) and
    radius 1, although the point left out, p0, is not in it; the first test
    looks at p3, not at p0. The solver as the specification words it goes on
    to the next triple and answers another sphere. *)
Theorem Sphere_4pt_returns_sphere_without_excluded_point :
  Sphere_4pt Inputs.tetra_p0 Inputs.tetra_p1 Inputs.tetra_p2 Inputs.tetra_p3
  = Sphere_3pt Inputs.tetra_p1 Inputs.tetra_p2 Inputs.tetra_p3
  /\ Sphere_3pt Inputs.tetra_p1 Inputs.tetra_p2 Inputs.tetra_p3
     = mkSphere (Inputs.vi 1 0 0) (B32.of_Z 1)
  /\ contains (Sphere_3pt Inputs.tetra_p1 Inputs.tetra_p2 Inputs.tetra_p3)
              Inputs.tetra_p0 = false
  /\ contains (sphereOf4_spec Inputs.tetra_p0 Inputs.tetra_p1 Inputs.tetra_p2
                              Inputs.tetra_p3)
              Inputs.tetra_p0 = true.
Proof. repeat split; vm_compute; reflexivity. Qed.

(** ** The reducer: surviving points are input points *)

Section ReducerFacts.
Context {T : Type} `{Scalar T}.
Variable orig : list (Vec3 T).
Variable n0 : Z.
Hypothesis Hn0 : 0 <= n0 < 4294967296.
Hypothesis Hlen0 : (Z.to_nat n0 <= length orig)%nat.

Lemma drawn_from_start : drawn_from orig n0 orig n0.
Proof.
  split; [reflexivity|]. split; [lia|].
  intros k q Hk Hq. exists k. split; assumption.
Qed.

(** Removing entry [j] by a copy of the last entry keeps the invariant. *)
Lemma drawn_from_shrink (pts : list (Vec3 T)) (n j : Z) (q : Vec3 T) :
  drawn_from orig n0 pts n -> 0 <= j < n ->
  pts !! Z.to_nat (n - 1) = Some q ->
  drawn_from orig n0 (<[Z.to_nat j := q]> pts) (n - 1).
Proof.
  intros (Hl & Hn & Hsub) Hj Hq.
  split; [rewrite length_insert; exact Hl|]. split; [lia|].
  intros k q' Hk Hq'.
  destruct (decide (k = Z.to_nat j)) as [->|Hne].
  - rewrite list_lookup_insert_eq in Hq' by lia.
    injection Hq' as <-. apply (Hsub (Z.to_nat (n - 1))); [lia | exact Hq].
  - rewrite list_lookup_insert_ne in Hq' by congruence.
    apply (Hsub k); [lia | exact Hq'].
Qed.

Lemma drawn_from_read (pts : list (Vec3 T)) (n i : Z) :
  drawn_from orig n0 pts n -> 0 <= i < n ->
  exists a, rd pts i = Ok a /\ pts !! Z.to_nat i = Some a.
Proof.
  intros (Hl & Hn & _) Hi. apply rd_in_range; lia.
Qed.

Lemma dedup_inner_drawn (tSq : T) (fuel : nat) :
  forall (pts : list (Vec3 T)) (i j n : Z),
    drawn_from orig n0 pts n -> 0 <= i < j -> j <= n ->
    (Z.to_nat (n - j) < fuel)%nat ->
    exists pts' n', dedup_inner fuel tSq pts i j n = Ok (pts', n') /\
                    drawn_from orig n0 pts' n' /\ j <= n' <= n.
Proof.
  induction fuel as [|fuel IH]; intros pts i j n Hd Hij Hjn Hfuel; [lia|].
  simpl. destruct (j <? n) eqn:Ejn.
  - apply Z.ltb_lt in Ejn.
    destruct (drawn_from_read pts n j Hd) as (pj & -> & _); [lia|].
    destruct (drawn_from_read pts n i Hd) as (pi & -> & _); [lia|].
    simpl. destruct (near_dup tSq pi pj).
    + pose proof Hd as (Hl & Hn & _).
      rewrite (u32_small (n - 1)) by lia.
      destruct (drawn_from_read pts n (n - 1) Hd) as (pl & -> & Hpl); [lia|].
      simpl. rewrite (wr_in_range pts j pl) by lia. simpl.
      rewrite u32_dec_inc by lia.
      destruct (IH (<[Z.to_nat j := pl]> pts) i j (n - 1))
        as (pts' & n' & E & Hd' & Hle);
        [apply drawn_from_shrink; auto; lia | lia | lia | lia |].
      exists pts', n'. split; [exact E|]. split; [exact Hd' | lia].
    + pose proof Hd as (Hl & Hn & _).
      rewrite (u32_small (j + 1)) by lia.
      destruct (IH pts i (j + 1) n) as (pts' & n' & E & Hd' & Hle);
        [auto | lia | lia | lia |].
      exists pts', n'. split; [exact E|]. split; [exact Hd' | lia].
  - apply Z.ltb_ge in Ejn. exists pts, n.
    split; [reflexivity|]. split; [exact Hd | lia].
Qed.

Lemma dedup_outer_eq (tSq : T) (fuel : nat) (pts : list (Vec3 T)) (i n : Z) :
  dedup_outer (S fuel) tSq pts i n =
  if i <? n then
    r <- dedup_inner (S (Z.to_nat n)) tSq pts i (u32 (i + 1)) n ;;
    dedup_outer fuel tSq (fst r) (u32 (i + 1)) (snd r)
  else Ok (pts, n).
Proof. reflexivity. Qed.

Lemma dedup_outer_drawn (tSq : T) (fuel : nat) :
  forall (pts : list (Vec3 T)) (i n : Z),
    drawn_from orig n0 pts n -> 0 <= i <= n ->
    (Z.to_nat (n - i) < fuel)%nat ->
    exists pts' n', dedup_outer fuel tSq pts i n = Ok (pts', n') /\
                    drawn_from orig n0 pts' n'.
Proof.
  induction fuel as [|fuel IH]; intros pts i n Hd Hi Hfuel; [lia|].
  rewrite dedup_outer_eq. destruct (i <? n) eqn:Ein.
  - apply Z.ltb_lt in Ein. pose proof Hd as (Hl & Hn & _).
    rewrite (u32_small (i + 1)) by lia.
    destruct (dedup_inner_drawn tSq (S (Z.to_nat n)) pts i (i + 1) n)
      as (pts1 & n1 & E1 & Hd1 & Hle1); [auto | lia | lia | lia |].
    rewrite E1. simpl.
    pose proof Hd1 as (_ & Hn1 & _).
    apply IH; [exact Hd1 | lia | lia].
  - exists pts, n. split; [reflexivity | exact Hd].
Qed.

(** The search for a separating plane reads inside the buffer only. *)
Lemma sep_loop_total (threshold : T) (pts : list (Vec3 T)) (i : Z) (k : nat) :
  forall (j : Z) (s : sep T),
    0 <= i -> (Z.to_nat i < length pts)%nat ->
    0 <= j -> (Z.to_nat j + k <= length pts)%nat ->
    j + Z.of_nat k < 4294967296 ->
    exists s', sep_loop threshold pts i k j s = Ok s'.
Proof.
  induction k as [|k IH]; intros j s Hi Hil Hj Hjk Hw; simpl.
  - exists s. reflexivity.
  - rewrite (u32_small (j + 1)) by lia.
    destruct (maySeparate s); [|exists s; reflexivity].
    destruct (i =? j).
    + apply IH; lia.
    + destruct (rd_in_range pts j) as (pj & -> & _); [lia | lia |].
      destruct (rd_in_range pts i) as (pi & -> & _); [lia | lia |].
      simpl. apply IH; lia.
Qed.

Lemma extreme_outer_eq (threshold : T) (fuel : nat) (pts : list (Vec3 T)) (i n : Z) :
  extreme_outer (S fuel) threshold pts i n =
  if i <? n then
    s <- sep_loop threshold pts i (Z.to_nat n) 0 sep_init ;;
    if negb (maySeparate s) then
      let n' := u32 (n - 1) in
      pl <- rd pts n' ;;
      points' <- wr pts i pl ;;
      extreme_outer fuel threshold points' (u32 (u32 (i - 1) + 1)) n'
    else
      extreme_outer fuel threshold pts (u32 (i + 1)) n
  else Ok (pts, n).
Proof. reflexivity. Qed.

Lemma extreme_outer_drawn (threshold : T) (fuel : nat) :
  forall (pts : list (Vec3 T)) (i n : Z),
    drawn_from orig n0 pts n -> 0 <= i <= n ->
    (Z.to_nat (n - i) < fuel)%nat ->
    exists pts' n', extreme_outer fuel threshold pts i n = Ok (pts', n') /\
                    drawn_from orig n0 pts' n'.
Proof.
  induction fuel as [|fuel IH]; intros pts i n Hd Hi Hfuel; [lia|].
  rewrite extreme_outer_eq. destruct (i <? n) eqn:Ein.
  - apply Z.ltb_lt in Ein. pose proof Hd as (Hl & Hn & _).
    destruct (sep_loop_total threshold pts i (Z.to_nat n) 0 sep_init)
      as (s & ->); [lia | lia | lia | lia | lia |].
    cbn [obind]. destruct (negb (maySeparate s)).
    + cbn zeta. rewrite (u32_small (n - 1)) by lia.
      destruct (drawn_from_read pts n (n - 1) Hd) as (pl & -> & Hpl); [lia|].
      cbn [obind]. rewrite (wr_in_range pts i pl) by lia. cbn [obind].
      rewrite u32_dec_inc by lia.
      apply IH; [apply drawn_from_shrink; auto; lia | lia | lia].
    + rewrite (u32_small (i + 1)) by lia.
      apply IH; [exact Hd | lia | lia].
  - exists pts, n. split; [reflexivity | exact Hd].
Qed.

End ReducerFacts.

Section ReducerRuns.
Context {T : Type} `{Scalar T}.

(** [convexSet] returns, and what it keeps is drawn from its input. *)
Lemma convexSet_drawn (points : list (Vec3 T)) (numPoints : Z) (threshold : T) :
  0 <= numPoints < 4294967296 ->
  numPoints <= Z.of_nat (length points) ->
  exists pts' c, convexSet points numPoints threshold = Ok (pts', c) /\
                 drawn_from points numPoints pts' c.
Proof.
  intros Hn Hlen. unfold convexSet, dedup.
  destruct (dedup_outer_drawn points numPoints Hn ltac:(lia)
              (s_mul threshold threshold) (S (Z.to_nat numPoints)) points 0 numPoints)
    as (pts1 & n1 & -> & Hd1); [apply drawn_from_start; lia | lia | lia |].
  cbn [obind fst snd].
  pose proof Hd1 as (_ & Hn1 & _).
  apply extreme_outer_drawn; [lia | lia | exact Hd1 | lia | lia].
Qed.

(** C10. For a buffer of at least [numPoints] points, [convexSet] returns a
    count [c <= numPoints], without a fault, and each of the first [c] entries
    of the buffer after the call is one of the [numPoints] input points. With
    [numPoints = 0] it returns 0 and leaves the buffer alone. *)
Theorem convexSet_keeps_input_points (points : list (Vec3 T)) (numPoints : Z)
    (threshold : T) :
  0 <= numPoints < 4294967296 ->
  numPoints <= Z.of_nat (length points) ->
  (exists pts' c,
      convexSet points numPoints threshold = Ok (pts', c) /\
      0 <= c <= numPoints /\
      forall k : nat, (k < Z.to_nat c)%nat ->
        exists (q : Vec3 T) (m : nat),
          pts' !! k = Some q /\ (m < Z.to_nat numPoints)%nat /\ points !! m = Some q)
  /\ convexSet points 0 threshold = Ok (points, 0).
Proof.
  intros Hn Hlen. split; [|reflexivity].
  destruct (convexSet_drawn points numPoints threshold Hn Hlen)
    as (pts' & c & Hrun & Hl & Hc & Hsub).
  exists pts', c. split; [exact Hrun|]. split; [exact Hc|].
  intros k Hk.
  destruct (lookup_lt_is_Some_2 pts' k) as [q Hq]; [lia|].
  destruct (Hsub k q Hk Hq) as (m & Hm & Hom).
  exists q, m. auto.
Qed.

(** C6, as the code has it. A second run of [convexSet] on the surviving
    prefix of a first run, with the same threshold, returns without a fault
    and its count is at most the count of the first run. *)
Theorem convexSet_second_run_le (points : list (Vec3 T)) (numPoints : Z)
    (threshold : T) :
  0 <= numPoints < 4294967296 ->
  numPoints <= Z.of_nat (length points) ->
  exists c1 c2, convexSet_twice points numPoints threshold = Ok (c1, c2) /\
                0 <= c2 <= c1 /\ c1 <= numPoints.
Proof.
  intros Hn Hlen. unfold convexSet_twice.
  destruct (convexSet_drawn points numPoints threshold Hn Hlen)
    as (pts1 & c1 & -> & Hl1 & Hc1 & _).
  cbn [obind fst snd].
  destruct (convexSet_drawn (take (Z.to_nat c1) pts1) c1 threshold)
    as (pts2 & c2 & -> & _ & Hc2 & _); [lia | rewrite length_take; lia |].
  cbn [obind snd]. exists c1, c2. split; [reflexivity | lia].
Qed.

End ReducerRuns.

(** ** The reducer: one pair of duplicates *)

Section DedupFacts.
Context {T : Type} `{Scalar T}.
Variable tSq : T.

(** A row without an accepted test leaves buffer and count alone. *)
Lemma dedup_inner_clear (fuel : nat) :
  forall (pts : list (Vec3 T)) (i j n : Z),
    0 <= i < j -> j <= n -> n < 4294967296 ->
    (Z.to_nat n <= length pts)%nat ->
    row_clear tSq pts (Z.to_nat i) (Z.to_nat j) (Z.to_nat n) ->
    (Z.to_nat (n - j) < fuel)%nat ->
    dedup_inner fuel tSq pts i j n = Ok (pts, n).
Proof.
  induction fuel as [|fuel IH]; intros pts i j n Hij Hjn Hn Hlen Hrow Hfuel; [lia|].
  simpl. destruct (j <? n) eqn:Ejn; [|reflexivity].
  apply Z.ltb_lt in Ejn.
  destruct (rd_in_range pts j) as (pj & -> & Hpj); [lia | lia |].
  destruct (rd_in_range pts i) as (pi & -> & Hpi); [lia | lia |].
  cbn [obind]. rewrite (Hrow (Z.to_nat j) pi pj) by (lia || assumption).
  rewrite (u32_small (j + 1)) by lia.
  apply IH; try lia.
  intros j' qi qj Hj'. apply Hrow. lia.
Qed.

Lemma dedup_outer_clear (fuel : nat) :
  forall (pts : list (Vec3 T)) (i n : Z),
    0 <= i <= n -> n < 4294967296 ->
    (Z.to_nat n <= length pts)%nat ->
    (forall i' : nat, (Z.to_nat i <= i')%nat ->
                      row_clear tSq pts i' (S i') (Z.to_nat n)) ->
    (Z.to_nat (n - i) < fuel)%nat ->
    dedup_outer fuel tSq pts i n = Ok (pts, n).
Proof.
  induction fuel as [|fuel IH]; intros pts i n Hi Hn Hlen Hrows Hfuel; [lia|].
  rewrite dedup_outer_eq. destruct (i <? n) eqn:Ein; [|reflexivity].
  apply Z.ltb_lt in Ein. rewrite (u32_small (i + 1)) by lia.
  rewrite (dedup_inner_clear (S (Z.to_nat n)) pts i (i + 1) n); try lia.
  - cbn [obind fst snd]. apply IH; try lia.
    intros i' Hi'. apply Hrows. lia.
  - replace (Z.to_nat (i + 1)) with (S (Z.to_nat i)) by lia. apply Hrows. lia.
Qed.

(** Row [a] up to its duplicate at [b]: the entry [b] is overwritten by the
    last one, the count drops by one, and the rest of the row is clear. *)
Lemma dedup_inner_hit (fuel : nat) :
  forall (pts : list (Vec3 T)) (a j n b : Z) (pa pb last : Vec3 T),
    0 <= a < j -> j <= b -> b < n -> n < 4294967296 ->
    (Z.to_nat n <= length pts)%nat ->
    row_clear tSq pts (Z.to_nat a) (Z.to_nat j) (Z.to_nat b) ->
    pts !! Z.to_nat a = Some pa -> pts !! Z.to_nat b = Some pb ->
    near_dup tSq pa pb = true ->
    pts !! Z.to_nat (n - 1) = Some last ->
    row_clear tSq (<[Z.to_nat b := last]> pts) (Z.to_nat a) (Z.to_nat b)
              (Z.to_nat (n - 1)) ->
    (Z.to_nat (n - j) < fuel)%nat ->
    dedup_inner fuel tSq pts a j n = Ok (<[Z.to_nat b := last]> pts, n - 1).
Proof.
  induction fuel as [|fuel IH];
    intros pts a j n b pa pb last Haj Hjb Hbn Hn Hlen Hrow Hpa Hpb Hnear Hlast
           Hrow' Hfuel; [lia|].
  simpl. destruct (j <? n) eqn:Ejn; [|apply Z.ltb_ge in Ejn; lia].
  destruct (rd_in_range pts j) as (pj & -> & Hpj); [lia | lia |].
  rewrite (rd_Some pts a pa) by (lia || assumption).
  cbn [obind].
  destruct (Z.eq_dec j b) as [->|Hne].
  - assert (pj = pb) as -> by congruence.
    rewrite Hnear. rewrite (u32_small (n - 1)) by lia.
    rewrite (rd_Some pts (n - 1) last) by (lia || assumption).
    cbn [obind]. rewrite (wr_in_range pts b last) by lia. cbn [obind].
    rewrite u32_dec_inc by lia.
    apply dedup_inner_clear; try lia; [rewrite length_insert; lia | exact Hrow'].
  - rewrite (Hrow (Z.to_nat j) pa pj) by (lia || assumption).
    rewrite (u32_small (j + 1)) by lia.
    apply (IH pts a (j + 1) n b pa pb last); try assumption; try lia.
    intros j' qi qj Hj'. apply Hrow. lia.
Qed.

Lemma dedup_outer_hit (fuel : nat) :
  forall (pts : list (Vec3 T)) (i n a b : Z) (pa pb last : Vec3 T),
    0 <= i <= a -> a < b -> b < n -> n < 4294967296 ->
    (Z.to_nat n <= length pts)%nat ->
    (forall i' : nat, (Z.to_nat i <= i' < Z.to_nat a)%nat ->
                      row_clear tSq pts i' (S i') (Z.to_nat n)) ->
    row_clear tSq pts (Z.to_nat a) (S (Z.to_nat a)) (Z.to_nat b) ->
    pts !! Z.to_nat a = Some pa -> pts !! Z.to_nat b = Some pb ->
    near_dup tSq pa pb = true ->
    pts !! Z.to_nat (n - 1) = Some last ->
    (forall i' : nat, (Z.to_nat a <= i')%nat ->
       row_clear tSq (<[Z.to_nat b := last]> pts) i' (S i') (Z.to_nat (n - 1))) ->
    (Z.to_nat (n - i) < fuel)%nat ->
    dedup_outer fuel tSq pts i n = Ok (<[Z.to_nat b := last]> pts, n - 1).
Proof.
  induction fuel as [|fuel IH];
    intros pts i n a b pa pb last Hia Hab Hbn Hn Hlen Hrows Hrowa Hpa Hpb Hnear
           Hlast Hrows' Hfuel; [lia|].
  rewrite dedup_outer_eq. destruct (i <? n) eqn:Ein; [|apply Z.ltb_ge in Ein; lia].
  rewrite (u32_small (i + 1)) by lia.
  destruct (Z.eq_dec i a) as [->|Hne].
  - rewrite (dedup_inner_hit (S (Z.to_nat n)) pts a (a + 1) n b pa pb last);
      try assumption; try lia.
    + cbn [obind fst snd]. apply dedup_outer_clear; try lia.
      * rewrite length_insert. lia.
      * intros i' Hi'. apply Hrows'. lia.
    + replace (Z.to_nat (a + 1)) with (S (Z.to_nat a)) by lia. exact Hrowa.
    + intros j qi qj Hj. apply (Hrows' (Z.to_nat a)); lia.
  - rewrite (dedup_inner_clear (S (Z.to_nat n)) pts i (i + 1) n); try lia.
    + cbn [obind fst snd].
      apply (IH pts (i + 1) n a b pa pb last); try assumption; try lia.
      intros i' Hi'. apply Hrows. lia.
    + replace (Z.to_nat (i + 1)) with (S (Z.to_nat i)) by lia. apply Hrows. lia.
Qed.

(** An entry of the buffer after the overwrite, in the buffer before. *)
Lemma lookup_insert_last (pts : list (Vec3 T)) (b k : nat) (last q : Vec3 T) :
  (b < length pts)%nat ->
  pts !! (length pts - 1)%nat = Some last ->
  <[b := last]> pts !! k = Some q ->
  pts !! (if decide (k = b) then (length pts - 1)%nat else k) = Some q.
Proof.
  intros Hb Hlast Hq. destruct (decide (k = b)) as [->|Hne].
  - rewrite list_lookup_insert_eq in Hq by lia. congruence.
  - rewrite list_lookup_insert_ne in Hq by congruence. exact Hq.
Qed.

(** C7. In a buffer where the test of the first loop nest, squared distance
    at most [tSq], accepts the pair of entries [a < b] and no other pair of
    distinct entries (in either order), that loop nest removes exactly the
    entry [b]: it overwrites it with the last entry and returns the count
    less one. Entry [a] survives. *)
Theorem dedup_one_pair (points : list (Vec3 T)) (a b : nat) (pa pb : Vec3 T) :
  Z.of_nat (length points) < 4294967296 ->
  (a < b < length points)%nat ->
  points !! a = Some pa -> points !! b = Some pb ->
  near_dup tSq pa pb = true ->
  (forall (i j : nat) (pi pj : Vec3 T), i <> j ->
     points !! i = Some pi -> points !! j = Some pj ->
     near_dup tSq pi pj = true -> (i = a /\ j = b) \/ (i = b /\ j = a)) ->
  exists last : Vec3 T,
    points !! (length points - 1)%nat = Some last /\
    dedup tSq points (Z.of_nat (length points))
    = Ok (<[b := last]> points, Z.of_nat (length points) - 1).
Proof.
  intros Hn Hab Hpa Hpb Hnear Honly.
  set (n := length points) in *.
  destruct (lookup_lt_is_Some_2 points (n - 1)%nat) as [last Hlast]; [lia|].
  exists last. split; [exact Hlast|].
  assert (Hclear : forall i j pi pj, i <> j ->
            ~ (i = a /\ j = b) -> ~ (i = b /\ j = a) ->
            points !! i = Some pi -> points !! j = Some pj ->
            near_dup tSq pi pj = false).
  { intros i j pi pj Hij H1 H2 Hi Hj.
    destruct (near_dup tSq pi pj) eqn:E; [|reflexivity].
    destruct (Honly i j pi pj Hij Hi Hj E); tauto. }
  unfold dedup. rewrite Nat2Z.id.
  pose proof (dedup_outer_hit (S n) points 0 (Z.of_nat n)
                (Z.of_nat a) (Z.of_nat b) pa pb last) as Hhit.
  rewrite !Nat2Z.id in Hhit.
  replace (Z.to_nat (Z.of_nat n - 1)) with (n - 1)%nat in Hhit by lia.
  apply Hhit; try assumption; try lia.
  - intros i' Hi' j pi pj Hj Hi Hjq. apply (Hclear i' j); try assumption; lia.
  - intros j pi pj Hj Hi Hjq. apply (Hclear a j); try assumption; lia.
  - intros i' Hi' j pi pj Hj Hi Hjq.
    apply (lookup_insert_last points b i' last pi) in Hi; [|lia|exact Hlast].
    apply (lookup_insert_last points b j last pj) in Hjq; [|lia|exact Hlast].
    fold n in Hi, Hjq.
    revert Hi Hjq. apply Hclear; repeat destruct (decide _); lia.
Qed.

End DedupFacts.

(** ** Runs on concrete inputs *)

(** C7 at four points of which the first and the third are one unit apart,
    with the threshold 2 (squared: 4). *)
Lemma dedup_one_pair_witness :
  Z.of_nat (length Inputs.close_pair) < 4294967296 /\
  (0 < 2 < length Inputs.close_pair)%nat /\
  near_dup (B32.of_Z 4) (Inputs.vi 0 0 0) (Inputs.vi 1 0 0) = true /\
  exists last : Vec3 B32.t,
    Inputs.close_pair !! (length Inputs.close_pair - 1)%nat = Some last /\
    dedup (B32.of_Z 4) Inputs.close_pair (Z.of_nat (length Inputs.close_pair))
    = Ok (<[2%nat := last]> Inputs.close_pair,
          Z.of_nat (length Inputs.close_pair) - 1).
Proof.
  split; [cbn; lia|]. split; [cbn; lia|]. split; [vm_compute; reflexivity|].
  apply (dedup_one_pair (B32.of_Z 4) Inputs.close_pair 0 2
           (Inputs.vi 0 0 0) (Inputs.vi 1 0 0)).
  - cbn; lia.
  - cbn; lia.
  - reflexivity.
  - reflexivity.
  - vm_compute; reflexivity.
  - intros i j pi pj Hij Hi Hj Hnear.
    destruct i as [|[|[|[|i]]]]; destruct j as [|[|[|[|j]]]];
      cbn in Hi, Hj; try discriminate; try congruence;
      injection Hi as <-; injection Hj as <-;
      vm_compute in Hnear; try discriminate;
      first [left; split; reflexivity | right; split; reflexivity].
Defined.

(** C10 at five points with the threshold 2. *)
Lemma convexSet_keeps_input_points_witness :
  0 <= 5 < 4294967296 /\
  5 <= Z.of_nat (length Inputs.five) /\
  ((exists pts' c,
       convexSet Inputs.five 5 (B32.of_Z 2) = Ok (pts', c) /\
       0 <= c <= 5 /\
       forall k : nat, (k < Z.to_nat c)%nat ->
         exists (q : Vec3 B32.t) (m : nat),
           pts' !! k = Some q /\ (m < Z.to_nat 5)%nat /\ Inputs.five !! m = Some q)
   /\ convexSet Inputs.five 0 (B32.of_Z 2) = Ok (Inputs.five, 0)).
Proof.
  split; [lia|]. split; [cbn; lia|].
  apply (convexSet_keeps_input_points Inputs.five 5 (B32.of_Z 2)); [lia | cbn; lia].
Defined.

(** C6, as amended, at the same five points. *)
Lemma convexSet_second_run_le_witness :
  0 <= 5 < 4294967296 /\
  5 <= Z.of_nat (length Inputs.five) /\
  exists c1 c2, convexSet_twice Inputs.five 5 (B32.of_Z 2) = Ok (c1, c2) /\
                0 <= c2 <= c1 /\ c1 <= 5.
Proof.
  split; [lia|]. split; [cbn; lia|].
  apply (convexSet_second_run_le Inputs.five 5 (B32.of_Z 2)); [lia | cbn; lia].
Defined.

(** C6, as stated, does not hold. On the points (0,0,0), (4,4,1), (8,0,0),
    (0,8,0), (32,32,12) with the threshold 2, the first run keeps four points
    and a second run on these four keeps three. In the first run the point
    (0,0,0) is tested against the plane of the next three points, which is
    far from it, and stays; (4,4,1) is one unit from the plane of (0,0,0),
    (8,0,0), (0,8,0) and goes, the last point taking its place. In the second
    run (0,0,0) is tested against the plane of (32,32,12), (8,0,0), (0,8,0),
    which passes at distance 1.64 of it, and goes. *)
Lemma convexSet_second_run_smaller :
  convexSet_twice Inputs.five 5 (B32.of_Z 2) = Ok (4, 3).
Proof. vm_compute. reflexivity. Qed.

(** C5, as stated, does not hold for the far plane. The double plane [nf]
    keeps one normal, the direction of the frustum, for both of its planes;
    along it the centroid (0, 0, 1.5) is at signed distance -0.5 of the far
    plane. *)
Lemma FastFrustum_far_plane_distance_negative :
  Inputs.fast_centroid = mkVec3 (B32.of_Z 0) (B32.of_Z 0) (B32.of_dyadic 3 1)
  /\ plane_dist (dop_second (ff_nf Inputs.fast)) Inputs.fast_centroid
     = B32.of_dyadic (-1) 1
  /\ s_ltb s_zero (plane_dist (dop_second (ff_nf Inputs.fast)) Inputs.fast_centroid)
     = false.
Proof. repeat split; vm_compute; reflexivity. Qed.

(** C5, as the code has it. For the frustum with apex (0,0,0), direction
    (0,0,1), up (0,1,0), l = -1, r = 1, b = -1, t = 1, n = 1, f = 2: each of
    the eight vertices is exactly on its two side planes and on its near or
    far plane (distance 0, within every tolerance); the signed distance of
    the centroid of the vertices to each of the four side planes and to the
    near plane is positive; to the far plane, which shares the normal of the
    near plane, it is negative: the centroid is between the two. *)
Theorem FastFrustum_consistent :
  vertices_on_planes s_zero Inputs.fast = true
  /\ s_ltb s_zero (plane_dist (ff_l Inputs.fast) Inputs.fast_centroid) = true
  /\ s_ltb s_zero (plane_dist (ff_r Inputs.fast) Inputs.fast_centroid) = true
  /\ s_ltb s_zero (plane_dist (ff_b Inputs.fast) Inputs.fast_centroid) = true
  /\ s_ltb s_zero (plane_dist (ff_t Inputs.fast) Inputs.fast_centroid) = true
  /\ s_ltb s_zero (plane_dist (dop_first (ff_nf Inputs.fast)) Inputs.fast_centroid)
     = true
  /\ s_ltb (plane_dist (dop_second (ff_nf Inputs.fast)) Inputs.fast_centroid) s_zero
     = true.
Proof. repeat split; vm_compute; reflexivity. Qed.


(** ** The engine on short buffers *)

Section SmallInputs.
Context {T : Type} `{Scalar T}.

Lemma scan_step_eq (rec : mbs_fun T) (b i : Z)
    (pts : list (SingleLinkedPointList T)) (first it last : Z) (mbs : Sphere T) :
  scan_step rec b i (mkScan pts first it last mbs) =
  (e <- rd pts it ;;
   _ <- eiAssert (negb (it =? 4294967295)) ;;
   if beyond mbs (p e) then
     pts1 <- set_next pts last (next e) ;;
     pts2 <- set_next pts1 it (int_of_u32 first) ;;
     r <- rec pts2 it i (u32 (b + 1)) ;;
     Ok (mkScan (fst r) it (u32 (next e)) it (snd r))
   else Ok (mkScan pts first (u32 (next e)) it mbs)).
Proof. reflexivity. Qed.

Lemma mbs_unfold (d : nat) :
  minimalBoundingSphere (S d) = mbs_body (minimalBoundingSphere d).
Proof. reflexivity. Qed.

Ltac crunch :=
  lazy -[Sphere_2pt Sphere_3pt Sphere_4pt lensq vsub s_mul s_ltb s_zero
         center radius beyond scan_step minimalBoundingSphere mbs_body].

Ltac run :=
  repeat first
    [ match goal with
      | E : beyond _ _ = _ |- _ => rewrite E
      end
    | progress crunch
    | rewrite scan_step_eq
    | match goal with
      | |- context [minimalBoundingSphere (S ?d) ?l ?f ?n ?b] =>
          change (minimalBoundingSphere (S d) l f n b)
            with (mbs_body (minimalBoundingSphere d) l f n b);
          unfold mbs_body at 1
      end ].

(** X1. For one point [Sphere(points, 1)] is the sphere of radius 0 at the
    point. For two points it is the two-point sphere of the second and the
    first point when the second point is off the first, and the sphere of
    radius 0 at the first point otherwise. *)
Theorem Sphere_points_one_or_two (p0 p1 : Vec3 T) :
  snd (Sphere_points [p0] 1) = Ok (mkSphere p0 s_zero)
  /\ snd (Sphere_points [p0; p1] 2)
     = Ok (if beyond (mkSphere p0 s_zero) p1 then Sphere_2pt p1 p0
           else mkSphere p0 s_zero).
Proof.
  split; [reflexivity|].
  destruct (beyond (mkSphere p0 s_zero) p1) eqn:E1; run; reflexivity.
Qed.

(** X2. For three points [Sphere(points, 3)] returns without a fault, and
    what it returns is the sphere of one point or of two of them, never the
    sphere of all three: the rebuild after a point is moved to the front
    covers the boundary points only. *)
Theorem Sphere_points_three (p0 p1 p2 : Vec3 T) :
  snd (Sphere_points [p0; p1; p2] 3)
  = Ok (if beyond (mkSphere p0 s_zero) p1 then
          if beyond (Sphere_2pt p1 p0) p2 then Sphere_2pt p2 p1
          else Sphere_2pt p1 p0
        else
          if beyond (mkSphere p0 s_zero) p2 then Sphere_2pt p2 p0
          else mkSphere p0 s_zero).
Proof.
  destruct (beyond (mkSphere p0 s_zero) p1) eqn:E1;
    [destruct (beyond (Sphere_2pt p1 p0) p2) eqn:E2
    |destruct (beyond (mkSphere p0 s_zero) p2) eqn:E2];
    run; reflexivity.
Qed.

(** X3. For four points of which the second, the third and the fourth are
    each outside the candidate sphere at their turn, [Sphere(points, 4)]
    reads outside its linked list: the last rebuild follows a link that is
    [-1]. *)
Theorem Sphere_points_four_chain_faults (p0 p1 p2 p3 : Vec3 T) :
  beyond (mkSphere p0 s_zero) p1 = true ->
  beyond (Sphere_2pt p1 p0) p2 = true ->
  beyond (Sphere_2pt p2 p1) p3 = true ->
  snd (Sphere_points [p0; p1; p2; p3] 4) = Fault OutOfBounds.
Proof.
  intros E1 E2 E3. run. reflexivity.
Qed.
End SmallInputs.

(** ** What the constructors read and pick *)

Lemma rd_take {A : Type} (l : list A) (m : nat) (i : Z) :
  (Z.to_nat i < m)%nat -> rd (take m l) i = rd l i.
Proof.
  intros Hi. unfold rd. destruct (i <? 0); [reflexivity|].
  rewrite lookup_take_lt by exact Hi. reflexivity.
Qed.

Section Prefix.
Context {T : Type} `{Scalar T}.

Lemma build_list_take (points : list (Vec3 T)) (m : nat) (k : nat) :
  forall i : Z,
    0 <= i -> (Z.to_nat i + k <= m)%nat -> i + Z.of_nat k <= 4294967296 ->
    build_list (take m points) k i = build_list points k i.
Proof.
  induction k as [|k IH]; intros i Hi Hm Hw; simpl; [reflexivity|].
  rewrite rd_take by lia.
  destruct (rd points i) as [q| |]; cbn [obind]; try reflexivity.
  destruct k as [|k']; [reflexivity|].
  rewrite u32_small by lia. rewrite IH by lia. reflexivity.
Qed.

(** X4. [Sphere(points, n)] reads the first [n] entries of the buffer only:
    it gives the same outcome on the buffer cut after [n] entries. *)
Theorem Sphere_points_reads_prefix (points : list (Vec3 T)) (numPoints : Z) :
  0 <= numPoints < 4294967296 ->
  snd (Sphere_points (take (Z.to_nat numPoints) points) numPoints)
  = snd (Sphere_points points numPoints).
Proof.
  intros Hn. unfold Sphere_points. cbn [snd].
  rewrite build_list_take by lia. reflexivity.
Qed.

Lemma smin_pick (a b : T) : smin a b = a \/ smin a b = b.
Proof. unfold smin. destruct (s_ltb a b); auto. Qed.

Lemma smax_pick (a b : T) : smax a b = a \/ smax a b = b.
Proof. unfold smax. destruct (s_ltb b a); auto. Qed.

Lemma picked_widen (sel : Vec3 T -> T) (points : list (Vec3 T)) (lo hi hi' : nat)
    (v : T) :
  (hi <= hi')%nat -> picked sel points lo hi v -> picked sel points lo hi' v.
Proof. intros Hh (j & q & Hj & Hq & Hv). exists j, q. split; [lia | auto]. Qed.

Lemma box_loop_picked (points : list (Vec3 T)) (lo : nat) (k : nat) :
  forall (i : Z) (mn mx mn' mx' : Vec3 T),
    0 <= i -> (lo <= Z.to_nat i)%nat -> i + Z.of_nat k <= 4294967296 ->
    all_picked points lo (Z.to_nat i) mn -> all_picked points lo (Z.to_nat i) mx ->
    box_loop points k i mn mx = Ok (mn', mx') ->
    all_picked points lo (Z.to_nat i + k) mn' /\
    all_picked points lo (Z.to_nat i + k) mx'.
Proof.
  induction k as [|k IH]; intros i mn mx mn' mx' Hi Hlo Hw Hmn Hmx; simpl.
  - intros [= <- <-]. rewrite Nat.add_0_r. auto.
  - destruct (rd points i) as [q| |] eqn:Hrd; cbn [obind]; try discriminate.
    apply rd_Ok_inv in Hrd as [_ Hq].
    assert (Hstep : forall (f : T -> T -> T) (v : Vec3 T) (g : Vec3 T -> Vec3 T -> Vec3 T),
               (forall a b, f a b = a \/ f a b = b) ->
               (forall a b, g a b = mkVec3 (f (vx a) (vx b)) (f (vy a) (vy b)) (f (vz a) (vz b))) ->
               all_picked points lo (Z.to_nat i) v ->
               all_picked points lo (S (Z.to_nat i)) (g v q)).
    { intros f v g Hf Hg (Hx & Hy & Hz). rewrite Hg. unfold all_picked. cbn [vx vy vz].
      repeat split.
      - destruct (Hf (vx v) (vx q)) as [-> | ->];
          [apply (picked_widen _ _ _ (Z.to_nat i)); [lia | exact Hx]
          |exists (Z.to_nat i), q; split; [lia | auto]].
      - destruct (Hf (vy v) (vy q)) as [-> | ->];
          [apply (picked_widen _ _ _ (Z.to_nat i)); [lia | exact Hy]
          |exists (Z.to_nat i), q; split; [lia | auto]].
      - destruct (Hf (vz v) (vz q)) as [-> | ->];
          [apply (picked_widen _ _ _ (Z.to_nat i)); [lia | exact Hz]
          |exists (Z.to_nat i), q; split; [lia | auto]]. }
    pose proof (Hstep smin mn vmin smin_pick (fun a b => eq_refl) Hmn) as Hmn1.
    pose proof (Hstep smax mx vmax smax_pick (fun a b => eq_refl) Hmx) as Hmx1.
    destruct k as [|k'].
    + simpl. intros [= <- <-]. replace (Z.to_nat i + 1)%nat with (S (Z.to_nat i)) by lia.
      auto.
    + rewrite u32_small by lia. intros Hrun.
      replace (Z.to_nat i + S (S k'))%nat with (Z.to_nat (i + 1) + S k')%nat by lia.
      apply (IH (i + 1) (vmin mn q) (vmax mx q)); try lia; try exact Hrun;
        replace (Z.to_nat (i + 1)) with (S (Z.to_nat i)) by lia; assumption.
Qed.

(** X7. When [Box(points, n)] returns a box, each coordinate of its [min]
    and of its [max] is that coordinate of one of the [n] points: the box
    touches the points on all six sides. *)
Theorem Box_points_tight (points : list (Vec3 T)) (numPoints : Z) (b : Box T) :
  numPoints < 4294967296 ->
  Box_points points numPoints = Ok b ->
  all_picked points 0 (Z.to_nat numPoints) (box_min b) /\
  all_picked points 0 (Z.to_nat numPoints) (box_max b).
Proof.
  intros Hn. unfold Box_points.
  destruct (0 <? numPoints) eqn:E; cbn [eiAssert obind]; try discriminate.
  apply Z.ltb_lt in E.
  destruct (rd points 0) as [p0| |] eqn:Hrd; cbn [obind]; try discriminate.
  apply rd_Ok_inv in Hrd as [_ Hp0].
  destruct (box_loop _ _ _ _ _) as [[mn mx]| |] eqn:Hrun; cbn [obind]; try discriminate.
  intros [= <-]. cbn [box_min box_max fst snd].
  assert (H0 : all_picked points 0 (Z.to_nat 1) p0).
  { repeat split; exists 0%nat, p0; (split; [simpl; lia | auto]). }
  destruct (box_loop_picked points 0 (Z.to_nat (numPoints - 1)) 1 p0 p0 mn mx)
    as [Hmn Hmx]; try lia; try assumption.
  replace (Z.to_nat 1 + Z.to_nat (numPoints - 1))%nat with (Z.to_nat numPoints)
    in * by lia.
  auto.
Qed.
End Prefix.

(** ** The order of single precision numbers *)

Lemma SFcompare_number (a b : spec_float) :
  is_number a = true -> is_number b = true -> exists c, SFcompare a b = Some c.
Proof.
  destruct a as [sa|sa| |sa ma ea], b as [sb|sb| |sb mb eb]; try discriminate;
    intros _ _; simpl; eauto.
Qed.

Lemma SFcompare_flip (a b : spec_float) (c : comparison) :
  SFcompare a b = Some c -> SFcompare b a = Some (CompOpp c).
Proof.
  destruct a as [sa|sa| |sa ma ea], b as [sb|sb| |sb mb eb]; simpl;
    try discriminate;
    try (destruct sa; intros [= <-]; reflexivity);
    try (destruct sb; intros [= <-]; reflexivity);
    try (destruct sa, sb; intros [= <-]; reflexivity).
  destruct sa, sb; intros [= <-]; try reflexivity;
    rewrite (Z.compare_antisym ea eb);
    destruct (ea ?= eb) eqn:E; simpl; try reflexivity;
    rewrite !Pos.compare_cont_spec, (Pos.compare_antisym ma mb);
    destruct (ma ?= mb)%positive; reflexivity.
Qed.

Lemma SFleb_refl (a : spec_float) : is_number a = true -> SFleb a a = true.
Proof.
  destruct a as [sa|sa| |sa ma ea]; try discriminate; intros _; unfold SFleb; simpl.
  - reflexivity.
  - destruct sa; reflexivity.
  - rewrite Z.compare_refl, Pos.compare_cont_spec, Pos.compare_refl.
    destruct sa; reflexivity.
Qed.

Lemma SFltb_false_leb (a b : spec_float) :
  is_number a = true -> is_number b = true ->
  SFltb a b = false -> SFleb b a = true.
Proof.
  intros Ha Hb. destruct (SFcompare_number a b Ha Hb) as [c Hc].
  unfold SFltb, SFleb. rewrite (SFcompare_flip a b c Hc), Hc.
  destruct c; simpl; congruence.
Qed.

Lemma SFltb_leb (a b : spec_float) : SFltb a b = true -> SFleb a b = true.
Proof.
  unfold SFltb, SFleb. destruct (SFcompare a b) as [[]|]; congruence.
Qed.

Lemma SFleb_rank (a b : spec_float) :
  is_number a = true -> is_number b = true ->
  (SFleb a b = true <-> lex_le (rank a) (rank b)).
Proof.
  destruct a as [sa|sa| |sa ma ea], b as [sb|sb| |sb mb eb]; try discriminate;
    intros _ _; unfold SFleb; simpl;
    try (destruct sa); try (destruct sb); simpl;
    try (split; [intros _; lia | reflexivity]);
    try (split; [discriminate | lia]).
  - destruct (Z.compare_spec ea eb); simpl;
      [rewrite Pos.compare_cont_spec;
       destruct (Pos.compare_spec ma mb); simpl|..];
      split; try discriminate; try reflexivity; lia.
  - destruct (Z.compare_spec ea eb); simpl;
      [rewrite Pos.compare_cont_spec;
       destruct (Pos.compare_spec ma mb); simpl|..];
      split; try discriminate; try reflexivity; lia.
Qed.

Lemma SFleb_trans (a b c : spec_float) :
  is_number a = true -> is_number b = true -> is_number c = true ->
  SFleb a b = true -> SFleb b c = true -> SFleb a c = true.
Proof.
  intros Ha Hb Hc Hab Hbc.
  apply (SFleb_rank a b Ha Hb) in Hab. apply (SFleb_rank b c Hb Hc) in Hbc.
  apply (SFleb_rank a c Ha Hc).
  destruct (rank a) as [[a1 a2] a3], (rank b) as [[b1 b2] b3], (rank c) as [[c1 c2] c3].
  unfold lex_le in *. lia.
Qed.

(** ** The box of a point buffer contains the points *)

Lemma smin_spec (a b : B32.t) :
  is_number a = true -> is_number b = true ->
  is_number (smin a b) = true /\ SFleb (smin a b) a = true /\ SFleb (smin a b) b = true.
Proof.
  intros Ha Hb. unfold smin. cbn [s_ltb binary32].
  destruct (SFltb a b) eqn:E.
  - split; [exact Ha|]. split; [apply SFleb_refl; exact Ha | apply SFltb_leb; exact E].
  - split; [exact Hb|]. split; [apply SFltb_false_leb; assumption | apply SFleb_refl; exact Hb].
Qed.

Lemma smax_spec (a b : B32.t) :
  is_number a = true -> is_number b = true ->
  is_number (smax a b) = true /\ SFleb a (smax a b) = true /\ SFleb b (smax a b) = true.
Proof.
  intros Ha Hb. unfold smax. cbn [s_ltb binary32].
  destruct (SFltb b a) eqn:E.
  - split; [exact Ha|]. split; [apply SFleb_refl; exact Ha | apply SFltb_leb; exact E].
  - split; [exact Hb|]. split; [apply SFltb_false_leb; assumption | apply SFleb_refl; exact Hb].
Qed.

Lemma vle_refl (a : Vec3 B32.t) : v_number a = true -> vle a a = true.
Proof.
  unfold v_number, vle. rewrite !andb_true_iff. intros [[Hx Hy] Hz].
  repeat split; apply SFleb_refl; assumption.
Qed.

Lemma vle_trans (a b c : Vec3 B32.t) :
  v_number a = true -> v_number b = true -> v_number c = true ->
  vle a b = true -> vle b c = true -> vle a c = true.
Proof.
  unfold v_number, vle. rewrite !andb_true_iff.
  intros [[Ha1 Ha2] Ha3] [[Hb1 Hb2] Hb3] [[Hc1 Hc2] Hc3] [[H1 H2] H3] [[K1 K2] K3].
  repeat split.
  - exact (SFleb_trans _ _ _ Ha1 Hb1 Hc1 H1 K1).
  - exact (SFleb_trans _ _ _ Ha2 Hb2 Hc2 H2 K2).
  - exact (SFleb_trans _ _ _ Ha3 Hb3 Hc3 H3 K3).
Qed.

Lemma vmin_spec (a b : Vec3 B32.t) :
  v_number a = true -> v_number b = true ->
  v_number (vmin a b) = true /\ vle (vmin a b) a = true /\ vle (vmin a b) b = true.
Proof.
  unfold v_number, vle, vmin. cbn [vx vy vz]. rewrite !andb_true_iff.
  intros [[Hax Hay] Haz] [[Hbx Hby] Hbz].
  destruct (smin_spec _ _ Hax Hbx) as (? & ? & ?).
  destruct (smin_spec _ _ Hay Hby) as (? & ? & ?).
  destruct (smin_spec _ _ Haz Hbz) as (? & ? & ?).
  repeat split; assumption.
Qed.

Lemma vmax_spec (a b : Vec3 B32.t) :
  v_number a = true -> v_number b = true ->
  v_number (vmax a b) = true /\ vle a (vmax a b) = true /\ vle b (vmax a b) = true.
Proof.
  unfold v_number, vle, vmax. cbn [vx vy vz]. rewrite !andb_true_iff.
  intros [[Hax Hay] Haz] [[Hbx Hby] Hbz].
  destruct (smax_spec _ _ Hax Hbx) as (? & ? & ?).
  destruct (smax_spec _ _ Hay Hby) as (? & ? & ?).
  destruct (smax_spec _ _ Haz Hbz) as (? & ? & ?).
  repeat split; assumption.
Qed.

Lemma box_loop_bounds (points : list (Vec3 B32.t)) (k : nat) :
  forall (i : Z) (mn mx : Vec3 B32.t),
    0 <= i -> i + Z.of_nat k <= Z.of_nat (length points) ->
    i + Z.of_nat k <= 4294967296 ->
    (forall (j : nat) (q : Vec3 B32.t),
        (Z.to_nat i <= j < Z.to_nat i + k)%nat -> points !! j = Some q ->
        v_number q = true) ->
    v_number mn = true -> v_number mx = true ->
    exists mn' mx',
      box_loop points k i mn mx = Ok (mn', mx') /\
      v_number mn' = true /\ v_number mx' = true /\
      vle mn' mn = true /\ vle mx mx' = true /\
      forall (j : nat) (q : Vec3 B32.t),
        (Z.to_nat i <= j < Z.to_nat i + k)%nat -> points !! j = Some q ->
        vle mn' q = true /\ vle q mx' = true.
Proof.
  induction k as [|k IH]; intros i mn mx Hi Hlen Hw Hnum Hmn Hmx; simpl.
  - exists mn, mx. split; [reflexivity|].
    repeat split; try assumption; try (apply vle_refl; assumption); lia.
  - destruct (rd_in_range points i) as (q & -> & Hq); [lia | lia |]. cbn [obind].
    assert (Hqn : v_number q = true) by (apply (Hnum (Z.to_nat i)); [lia | exact Hq]).
    destruct (vmin_spec mn q Hmn Hqn) as (Hn1 & Hle1 & Hle1q).
    destruct (vmax_spec mx q Hmx Hqn) as (Hn2 & Hle2 & Hle2q).
    destruct k as [|k'].
    + simpl. exists (vmin mn q), (vmax mx q). split; [reflexivity|].
      split; [assumption|]. split; [assumption|].
      split; [assumption|]. split; [assumption|].
      intros j q' Hj Hq'.
      assert (j = Z.to_nat i) as -> by lia.
      assert (q' = q) as -> by congruence. split; assumption.
    + rewrite u32_small by lia.
      destruct (IH (i + 1) (vmin mn q) (vmax mx q)) as
          (mn' & mx' & Hrun & Hmn' & Hmx' & Hlemn & Hlemx & Hall);
        [lia | lia | lia | | assumption | assumption |].
      { intros j q' Hj Hq'. apply (Hnum j); [lia | exact Hq']. }
      exists mn', mx'. split; [exact Hrun|].
      split; [exact Hmn'|]. split; [exact Hmx'|].
      split; [apply (vle_trans mn' (vmin mn q) mn); assumption|].
      split; [apply (vle_trans mx (vmax mx q) mx'); assumption|].
      intros j q' Hj Hq'.
      destruct (decide (j = Z.to_nat i)) as [->|Hne].
      * assert (q' = q) as -> by congruence.
        split; [apply (vle_trans mn' (vmin mn q) q); assumption
               |apply (vle_trans q (vmax mx q) mx'); assumption].
      * apply (Hall j); [lia | exact Hq'].
Qed.

(** X6. For [0 < n] points without NaN coordinates, [Box(points, n)] returns
    a box with [min <= max] on every axis, and every one of the [n] points is
    between [min] and [max] on every axis. *)
Theorem Box_points_contains (points : list (Vec3 B32.t)) (numPoints : Z) :
  0 < numPoints < 4294967296 ->
  numPoints <= Z.of_nat (length points) ->
  (forall (j : nat) (q : Vec3 B32.t),
      (j < Z.to_nat numPoints)%nat -> points !! j = Some q -> v_number q = true) ->
  exists b : Box B32.t,
    Box_points points numPoints = Ok b /\
    vle (box_min b) (box_max b) = true /\
    forall (j : nat) (q : Vec3 B32.t),
      (j < Z.to_nat numPoints)%nat -> points !! j = Some q ->
      vle (box_min b) q = true /\ vle q (box_max b) = true.
Proof.
  intros Hn Hlen Hnum. unfold Box_points.
  destruct (0 <? numPoints) eqn:E; [|apply Z.ltb_ge in E; lia].
  cbn [eiAssert obind].
  destruct (rd_in_range points 0) as (p0 & -> & Hp0); [lia | lia |]. cbn [obind].
  assert (Hp0n : v_number p0 = true) by (apply (Hnum 0%nat); [lia | exact Hp0]).
  destruct (box_loop_bounds points (Z.to_nat (numPoints - 1)) 1 p0 p0)
    as (mn & mx & -> & Hmn & Hmx & Hlemn & Hlemx & Hall);
    [lia | lia | lia | | assumption | assumption |].
  { intros j q Hj Hq. apply (Hnum j); [lia | exact Hq]. }
  cbn [obind fst snd]. eexists. split; [reflexivity|]. cbn [box_min box_max].
  split; [apply (vle_trans mn p0 mx); assumption|].
  intros j q Hj Hq.
  destruct j as [|j].
  - assert (q = p0) as -> by (change (Z.to_nat 0) with 0%nat in Hp0; congruence).
    split; assumption.
  - apply (Hall (S j)); [lia | exact Hq].
Qed.

(** ** The reducer: frame and multiplicity *)

Lemma swap_remove_submseteq {A : Type} (pts : list A) (n j : nat) (q : A) :
  (j < n)%nat -> (n <= length pts)%nat -> pts !! (n - 1)%nat = Some q ->
  take (n - 1) (<[j := q]> pts) ⊆+ take n pts.
Proof.
  intros Hj Hn Hq.
  replace n with (S (n - 1)) at 2 by lia.
  rewrite (take_S_r pts (n - 1) q Hq).
  destruct (decide (j = n - 1)%nat) as [->|Hne].
  - rewrite take_insert_ge by lia. apply submseteq_inserts_r. reflexivity.
  - rewrite take_insert_lt by lia.
    set (M := take (n - 1) pts).
    assert (Hlen : (j < length M)%nat) by (unfold M; rewrite length_take; lia).
    destruct (lookup_lt_is_Some_2 M j Hlen) as [pj Hpj].
    rewrite (insert_take_drop M j q Hlen).
    rewrite <- (take_drop_middle M j pj Hpj) at 3.
    rewrite <- !app_assoc. apply submseteq_app; [reflexivity|].
    cbn [app].
    transitivity (q :: pj :: drop (S j) M).
    + apply submseteq_skip. apply submseteq_cons. reflexivity.
    + change (pj :: drop (S j) M ++ [q]) with ((pj :: drop (S j) M) ++ [q]).
      rewrite <- (Permutation_cons_append (pj :: drop (S j) M) q). reflexivity.
Qed.

Section ReducerInvariant.
Context {T : Type} `{Scalar T}.
Variable Inv : list (Vec3 T) -> Z -> Prop.
Hypothesis Inv_bounds : forall pts n,
  Inv pts n -> 0 <= n < 4294967296 /\ (Z.to_nat n <= length pts)%nat.
Hypothesis Inv_shrink : forall pts n j q,
  Inv pts n -> 0 <= j < n -> pts !! Z.to_nat (n - 1) = Some q ->
  Inv (<[Z.to_nat j := q]> pts) (n - 1).

Lemma dedup_inner_inv (tSq : T) (fuel : nat) :
  forall (pts : list (Vec3 T)) (i j n : Z),
    Inv pts n -> 0 <= i < j -> j <= n ->
    (Z.to_nat (n - j) < fuel)%nat ->
    exists pts' n', dedup_inner fuel tSq pts i j n = Ok (pts', n') /\
                    Inv pts' n' /\ j <= n' <= n.
Proof.
  induction fuel as [|fuel IH]; intros pts i j n Hd Hij Hjn Hfuel; [lia|].
  destruct (Inv_bounds pts n Hd) as [Hn Hl].
  simpl. destruct (j <? n) eqn:Ejn.
  - apply Z.ltb_lt in Ejn.
    destruct (rd_in_range pts j) as (pj & -> & _); [lia | lia |].
    destruct (rd_in_range pts i) as (pi & -> & _); [lia | lia |].
    cbn [obind]. destruct (near_dup tSq pi pj).
    + rewrite (u32_small (n - 1)) by lia.
      destruct (rd_in_range pts (n - 1)) as (pl & -> & Hpl); [lia | lia |].
      cbn [obind]. rewrite (wr_in_range pts j pl) by lia. cbn [obind].
      rewrite u32_dec_inc by lia.
      destruct (IH (<[Z.to_nat j := pl]> pts) i j (n - 1))
        as (pts' & n' & E & Hd' & Hle);
        [apply Inv_shrink; auto; lia | lia | lia | lia |].
      exists pts', n'. split; [exact E|]. split; [exact Hd' | lia].
    + rewrite (u32_small (j + 1)) by lia.
      destruct (IH pts i (j + 1) n) as (pts' & n' & E & Hd' & Hle);
        [auto | lia | lia | lia |].
      exists pts', n'. split; [exact E|]. split; [exact Hd' | lia].
  - apply Z.ltb_ge in Ejn. exists pts, n.
    split; [reflexivity|]. split; [exact Hd | lia].
Qed.

Lemma dedup_outer_inv (tSq : T) (fuel : nat) :
  forall (pts : list (Vec3 T)) (i n : Z),
    Inv pts n -> 0 <= i <= n ->
    (Z.to_nat (n - i) < fuel)%nat ->
    exists pts' n', dedup_outer fuel tSq pts i n = Ok (pts', n') /\
                    Inv pts' n' /\ i <= n' <= n.
Proof.
  induction fuel as [|fuel IH]; intros pts i n Hd Hi Hfuel; [lia|].
  destruct (Inv_bounds pts n Hd) as [Hn Hl].
  rewrite dedup_outer_eq. destruct (i <? n) eqn:Ein.
  - apply Z.ltb_lt in Ein.
    rewrite (u32_small (i + 1)) by lia.
    destruct (dedup_inner_inv tSq (S (Z.to_nat n)) pts i (i + 1) n)
      as (pts1 & n1 & E1 & Hd1 & Hle1); [auto | lia | lia | lia |].
    rewrite E1. cbn [obind fst snd].
    destruct (IH pts1 (i + 1) n1) as (pts' & n' & E & Hd' & Hle);
      [exact Hd1 | lia | lia |].
    exists pts', n'. split; [exact E|]. split; [exact Hd' | lia].
  - apply Z.ltb_ge in Ein. exists pts, n.
    split; [reflexivity|]. split; [exact Hd | lia].
Qed.

Lemma extreme_outer_inv (threshold : T) (fuel : nat) :
  forall (pts : list (Vec3 T)) (i n : Z),
    Inv pts n -> 0 <= i <= n ->
    (Z.to_nat (n - i) < fuel)%nat ->
    exists pts' n', extreme_outer fuel threshold pts i n = Ok (pts', n') /\
                    Inv pts' n' /\ n' <= n.
Proof.
  induction fuel as [|fuel IH]; intros pts i n Hd Hi Hfuel; [lia|].
  destruct (Inv_bounds pts n Hd) as [Hn Hl].
  rewrite extreme_outer_eq. destruct (i <? n) eqn:Ein.
  - apply Z.ltb_lt in Ein.
    destruct (sep_loop_total pts n Hl threshold pts i (Z.to_nat n) 0 sep_init)
      as (s & ->); [lia | lia | lia | lia | lia |].
    cbn [obind]. destruct (negb (maySeparate s)).
    + cbn zeta. rewrite (u32_small (n - 1)) by lia.
      destruct (rd_in_range pts (n - 1)) as (pl & -> & Hpl); [lia | lia |].
      cbn [obind]. rewrite (wr_in_range pts i pl) by lia. cbn [obind].
      rewrite u32_dec_inc by lia.
      destruct (IH (<[Z.to_nat i := pl]> pts) i (n - 1))
        as (pts' & n' & E & Hd' & Hle);
        [apply Inv_shrink; auto; lia | lia | lia |].
      exists pts', n'. split; [exact E|]. split; [exact Hd' | lia].
    + rewrite (u32_small (i + 1)) by lia.
      destruct (IH pts (i + 1) n) as (pts' & n' & E & Hd' & Hle);
        [exact Hd | lia | lia |].
      exists pts', n'. split; [exact E|]. split; [exact Hd' | lia].
  - exists pts, n. split; [reflexivity|]. split; [exact Hd | lia].
Qed.

Lemma convexSet_inv (points : list (Vec3 T)) (numPoints : Z) (threshold : T) :
  Inv points numPoints ->
  exists pts' c, convexSet points numPoints threshold = Ok (pts', c) /\
                 Inv pts' c /\ c <= numPoints.
Proof.
  intros Hd. destruct (Inv_bounds _ _ Hd) as [Hn Hl]. unfold convexSet, dedup.
  destruct (dedup_outer_inv (s_mul threshold threshold) (S (Z.to_nat numPoints))
              points 0 numPoints) as (pts1 & n1 & -> & Hd1 & Hle1);
    [exact Hd | lia | lia |].
  cbn [obind fst snd].
  destruct (Inv_bounds _ _ Hd1) as [Hn1 Hl1].
  destruct (extreme_outer_inv threshold (S (Z.to_nat n1)) pts1 0 n1)
    as (pts' & c & -> & Hd' & Hle); [exact Hd1 | lia | lia |].
  exists pts', c. split; [reflexivity|]. split; [exact Hd' | lia].
Qed.

End ReducerInvariant.

Section ReducerFrame.
Context {T : Type} `{Scalar T}.

Lemma kept_from_bounds (orig : list (Vec3 T)) (n0 : Z) (pts : list (Vec3 T)) (n : Z) :
  kept_from orig n0 pts n -> 0 <= n < 4294967296 /\ (Z.to_nat n <= length pts)%nat.
Proof. intros (Hn & Hn0 & Hl0 & Hl & _). lia. Qed.

Lemma kept_from_shrink (orig : list (Vec3 T)) (n0 : Z) (pts : list (Vec3 T))
    (n j : Z) (q : Vec3 T) :
  kept_from orig n0 pts n -> 0 <= j < n -> pts !! Z.to_nat (n - 1) = Some q ->
  kept_from orig n0 (<[Z.to_nat j := q]> pts) (n - 1).
Proof.
  intros (Hn & Hn0 & Hl0 & Hl & Hframe & Hsub) Hj Hq.
  split; [lia|]. split; [lia|]. split; [lia|].
  split; [rewrite length_insert; exact Hl|]. split.
  - intros k Hk. rewrite list_lookup_insert_ne by lia. apply Hframe. exact Hk.
  - etransitivity; [|exact Hsub].
    replace (Z.to_nat (n - 1)) with (Z.to_nat n - 1)%nat by lia.
    apply swap_remove_submseteq; [lia | lia |].
    replace (Z.to_nat n - 1)%nat with (Z.to_nat (n - 1)) by lia. exact Hq.
Qed.

Lemma kept_from_start (orig : list (Vec3 T)) (n0 : Z) :
  0 <= n0 < 4294967296 -> (Z.to_nat n0 <= length orig)%nat ->
  kept_from orig n0 orig n0.
Proof. intros Hn Hl. repeat split; try lia; reflexivity. Qed.

(** X8. [convexSet] keeps the length of the buffer and does not touch the
    entries from [_numPoints] on. *)
Theorem convexSet_frame (points : list (Vec3 T)) (numPoints : Z) (threshold : T) :
  0 <= numPoints < 4294967296 ->
  numPoints <= Z.of_nat (length points) ->
  exists pts' c,
    convexSet points numPoints threshold = Ok (pts', c) /\
    length pts' = length points /\
    forall k : nat, (Z.to_nat numPoints <= k)%nat -> pts' !! k = points !! k.
Proof.
  intros Hn Hl.
  destruct (convexSet_inv (kept_from points numPoints)
              (kept_from_bounds points numPoints) (kept_from_shrink points numPoints)
              points numPoints threshold)
    as (pts' & c & Hrun & (_ & _ & _ & Hlen & Hframe & _) & _);
    [apply kept_from_start; lia|].
  exists pts', c. auto.
Qed.

(** X9. The points that [convexSet] keeps are, with multiplicity, among the
    input points: the surviving prefix is a sub-multiset of the first
    [_numPoints] entries, so no point is kept more often than it came in. *)
Theorem convexSet_submultiset (points : list (Vec3 T)) (numPoints : Z) (threshold : T) :
  0 <= numPoints < 4294967296 ->
  numPoints <= Z.of_nat (length points) ->
  exists pts' c,
    convexSet points numPoints threshold = Ok (pts', c) /\
    take (Z.to_nat c) pts' ⊆+ take (Z.to_nat numPoints) points.
Proof.
  intros Hn Hl.
  destruct (convexSet_inv (kept_from points numPoints)
              (kept_from_bounds points numPoints) (kept_from_shrink points numPoints)
              points numPoints threshold)
    as (pts' & c & Hrun & (_ & _ & _ & _ & _ & Hsub) & _);
    [apply kept_from_start; lia|].
  exists pts', c. auto.
Qed.
End ReducerFrame.

(** ** The reducer: what the search for duplicates leaves *)

Section DedupPost.
Context {T : Type} `{Scalar T}.
Variable tSq : T.

Lemma dedup_inner_rows (fuel : nat) :
  forall (pts : list (Vec3 T)) (i j n : Z),
    0 <= i < j -> j <= n -> n < 4294967296 ->
    (Z.to_nat n <= length pts)%nat ->
    rows_clear tSq pts (Z.to_nat i) (Z.to_nat n) ->
    row_clear tSq pts (Z.to_nat i) (S (Z.to_nat i)) (Z.to_nat j) ->
    (Z.to_nat (n - j) < fuel)%nat ->
    exists pts' n',
      dedup_inner fuel tSq pts i j n = Ok (pts', n') /\
      j <= n' <= n /\ length pts' = length pts /\
      pts' !! 0%nat = pts !! 0%nat /\
      rows_clear tSq pts' (S (Z.to_nat i)) (Z.to_nat n').
Proof.
  induction fuel as [|fuel IH]; intros pts i j n Hij Hjn Hn Hlen Hrows Hrow Hfuel; [lia|].
  simpl. destruct (j <? n) eqn:Ejn.
  - apply Z.ltb_lt in Ejn.
    destruct (rd_in_range pts j) as (pj & -> & Hpj); [lia | lia |].
    destruct (rd_in_range pts i) as (pi & -> & Hpi); [lia | lia |].
    cbn [obind]. destruct (near_dup tSq pi pj) eqn:Enear.
    + rewrite (u32_small (n - 1)) by lia.
      destruct (rd_in_range pts (n - 1)) as (pl & -> & Hpl); [lia | lia |].
      cbn [obind]. rewrite (wr_in_range pts j pl) by lia. cbn [obind].
      rewrite u32_dec_inc by lia.
      destruct (IH (<[Z.to_nat j := pl]> pts) i j (n - 1))
        as (pts' & n' & E & Hle & Hl' & H0 & Hrows'); try lia.
      * rewrite length_insert. lia.
      * intros i' Hi' j' qi qj Hj' Hqi Hqj.
        rewrite list_lookup_insert_ne in Hqi by lia.
        destruct (decide (j' = Z.to_nat j)) as [->|Hne].
        -- rewrite list_lookup_insert_eq in Hqj by lia. injection Hqj as <-.
           apply (Hrows i' Hi' (Z.to_nat (n - 1))); [lia | exact Hqi | exact Hpl].
        -- rewrite list_lookup_insert_ne in Hqj by congruence.
           apply (Hrows i' Hi' j'); [lia | exact Hqi | exact Hqj].
      * intros j' qi qj Hj' Hqi Hqj.
        rewrite list_lookup_insert_ne in Hqi by lia.
        rewrite list_lookup_insert_ne in Hqj by lia.
        apply (Hrow j'); [lia | exact Hqi | exact Hqj].
      * exists pts', n'. split; [exact E|]. split; [lia|].
        split; [rewrite Hl'; apply length_insert|].
        split; [rewrite H0; apply list_lookup_insert_ne; lia | exact Hrows'].
    + rewrite (u32_small (j + 1)) by lia.
      destruct (IH pts i (j + 1) n) as (pts' & n' & E & Hle & Hl' & H0 & Hrows');
        try lia; try assumption.
      * intros j' qi qj Hj' Hqi Hqj.
        destruct (decide (j' = Z.to_nat j)) as [->|Hne].
        -- assert (qi = pi) as -> by congruence.
           assert (qj = pj) as -> by congruence. exact Enear.
        -- apply (Hrow j'); [lia | exact Hqi | exact Hqj].
      * exists pts', n'. split; [exact E|]. split; [lia|]. auto.
  - apply Z.ltb_ge in Ejn. exists pts, n. split; [reflexivity|].
    split; [lia|]. split; [reflexivity|]. split; [reflexivity|].
    intros i' Hi'.
    destruct (decide (i' = Z.to_nat i)) as [->|Hne].
    + intros j' qi qj Hj'. apply Hrow. lia.
    + apply Hrows. lia.
Qed.

Lemma dedup_outer_rows (fuel : nat) :
  forall (pts : list (Vec3 T)) (i n : Z),
    0 <= i <= n -> n < 4294967296 ->
    (Z.to_nat n <= length pts)%nat ->
    rows_clear tSq pts (Z.to_nat i) (Z.to_nat n) ->
    (Z.to_nat (n - i) < fuel)%nat ->
    exists pts' n',
      dedup_outer fuel tSq pts i n = Ok (pts', n') /\
      i <= n' <= n /\ (i < n -> i < n') /\ length pts' = length pts /\
      (0 < n -> pts' !! 0%nat = pts !! 0%nat) /\
      rows_clear tSq pts' (Z.to_nat n') (Z.to_nat n').
Proof.
  induction fuel as [|fuel IH]; intros pts i n Hi Hn Hlen Hrows Hfuel; [lia|].
  rewrite dedup_outer_eq. destruct (i <? n) eqn:Ein.
  - apply Z.ltb_lt in Ein. rewrite (u32_small (i + 1)) by lia.
    destruct (dedup_inner_rows (S (Z.to_nat n)) pts i (i + 1) n)
      as (pts1 & n1 & -> & Hle1 & Hl1 & H01 & Hrows1); try lia; try assumption.
    { intros j' qi qj Hj'. lia. }
    cbn [obind fst snd].
    destruct (IH pts1 (i + 1) n1) as (pts' & n' & E & Hle & _ & Hl' & H0 & Hrows');
      try lia.
    { replace (Z.to_nat (i + 1)) with (S (Z.to_nat i)) by lia. exact Hrows1. }
    exists pts', n'. split; [exact E|]. split; [lia|]. split; [lia|].
    split; [congruence|]. split; [|exact Hrows'].
    intros _. rewrite H0 by lia. exact H01.
  - apply Z.ltb_ge in Ein. exists pts, n. split; [reflexivity|].
    split; [lia|]. split; [lia|]. split; [reflexivity|]. split; [reflexivity|].
    assert (i = n) as -> by lia. exact Hrows.
Qed.

(** The search for duplicates always returns; it keeps the length of the
    buffer, never raises the count and never brings a positive count to 0. *)
Lemma dedup_bounds (points : list (Vec3 T)) (numPoints : Z) :
  0 <= numPoints < 4294967296 ->
  numPoints <= Z.of_nat (length points) ->
  exists pts' n',
    dedup tSq points numPoints = Ok (pts', n') /\
    0 <= n' <= numPoints /\ (0 < numPoints -> 0 < n') /\
    length pts' = length points.
Proof.
  intros Hn Hlen. unfold dedup.
  destruct (dedup_outer_rows (S (Z.to_nat numPoints)) points 0 numPoints)
    as (pts' & n' & E & Hle & Hpos' & Hl' & _); try lia.
  { intros i' Hi'. lia. }
  exists pts', n'. auto.
Qed.

(** X10. The search for duplicates of [convexSet] returns a buffer in whose
    surviving prefix the test of the search, squared distance at most [tSq],
    fails for every pair of entries [i < j]. Run again on its own output it
    changes nothing. For a count above 0 the first point stays in place and
    the count stays positive. *)
Theorem dedup_separates (points : list (Vec3 T)) (numPoints : Z) :
  0 <= numPoints < 4294967296 ->
  numPoints <= Z.of_nat (length points) ->
  exists pts' n',
    dedup tSq points numPoints = Ok (pts', n') /\
    (forall (i j : nat) (pi pj : Vec3 T),
        (i < j < Z.to_nat n')%nat ->
        pts' !! i = Some pi -> pts' !! j = Some pj ->
        near_dup tSq pi pj = false) /\
    dedup tSq pts' n' = Ok (pts', n') /\
    (0 < numPoints -> 0 < n' /\ pts' !! 0%nat = points !! 0%nat).
Proof.
  intros Hn Hlen. unfold dedup at 1.
  destruct (dedup_outer_rows (S (Z.to_nat numPoints)) points 0 numPoints)
    as (pts' & n' & -> & Hle & Hpos' & Hl' & H0 & Hrows); try lia.
  { intros i' Hi'. lia. }
  exists pts', n'. split; [reflexivity|].
  assert (Hpair : forall (i j : nat) (pi pj : Vec3 T),
             (i < j < Z.to_nat n')%nat ->
             pts' !! i = Some pi -> pts' !! j = Some pj ->
             near_dup tSq pi pj = false).
  { intros i j pi pj Hij Hi Hj. apply (Hrows i ltac:(lia) j); [lia | exact Hi | exact Hj]. }
  split; [exact Hpair|]. split.
  - unfold dedup. apply dedup_outer_clear; try lia.
    intros i' _ j pi pj Hj Hi Hjq. apply (Hpair i' j); [lia | exact Hi | exact Hjq].
  - intros Hpos. split; [apply Hpos'; exact Hpos | apply H0; exact Hpos].
Qed.
End DedupPost.

(** ** The reducer: at least two points stay *)

Section ExtremeFew.
Context {T : Type} `{Scalar T}.
Variable threshold : T.

(** With at most one other point the search for a plane never gives up. *)
Lemma sep_loop_two (pts : list (Vec3 T)) (i n : Z) :
  0 <= i < n -> n <= 2 -> (Z.to_nat n <= length pts)%nat ->
  exists s, sep_loop threshold pts i (Z.to_nat n) 0 sep_init = Ok s /\
            maySeparate s = true.
Proof.
  intros Hi Hn Hlen.
  assert (Hcases : (n = 1 /\ i = 0) \/ (n = 2 /\ i = 0) \/ (n = 2 /\ i = 1)) by lia.
  destruct Hcases as [[-> ->]|[[-> ->]|[-> ->]]].
  - eexists. split; reflexivity.
  - destruct (rd_in_range pts 1) as (p1 & Hr1 & _); [lia | lia |].
    destruct (rd_in_range pts 0) as (p0 & Hr0 & _); [lia | lia |].
    change (Z.to_nat 2) with 2%nat. cbn [sep_loop sep_init maySeparate].
    change (0 =? 0) with true. cbn iota. change (u32 (0 + 1)) with 1.
    change (0 =? 1) with false. cbn iota. rewrite Hr1, Hr0. cbn [obind].
    eexists. split; reflexivity.
  - destruct (rd_in_range pts 1) as (p1 & Hr1 & _); [lia | lia |].
    destruct (rd_in_range pts 0) as (p0 & Hr0 & _); [lia | lia |].
    change (Z.to_nat 2) with 2%nat. cbn [sep_loop sep_init maySeparate].
    change (1 =? 0) with false. cbn iota. rewrite Hr1, Hr0. cbn [obind].
    change (sep_case threshold p1 p0 _) with
      (mkSep p0 vzero vzero (mkPlane vzero s_zero) s_zero 1 true).
    cbn [maySeparate]. change (u32 (0 + 1)) with 1.
    change (1 =? 1) with true. cbn iota.
    eexists. split; reflexivity.
Qed.

(** The second loop never brings the count below two. *)
Lemma extreme_outer_floor (fuel : nat) :
  forall (pts : list (Vec3 T)) (i n : Z),
    0 <= i <= n -> n < 4294967296 -> (Z.to_nat n <= length pts)%nat ->
    (Z.to_nat (n - i) < fuel)%nat ->
    exists pts' n',
      extreme_outer fuel threshold pts i n = Ok (pts', n') /\
      n' <= n /\ Z.min n 2 <= n' /\ (n <= 2 -> pts' = pts).
Proof.
  induction fuel as [|fuel IH]; intros pts i n Hi Hn Hlen Hfuel; [lia|].
  rewrite extreme_outer_eq. destruct (i <? n) eqn:Ein.
  - apply Z.ltb_lt in Ein.
    destruct (Z_le_gt_dec n 2) as [Hsmall|Hbig].
    + destruct (sep_loop_two pts i n) as (s & -> & Hs); [lia | lia | lia |].
      cbn [obind]. rewrite Hs. cbn [negb]. rewrite (u32_small (i + 1)) by lia.
      destruct (IH pts (i + 1) n) as (pts' & n' & E & Hle & Hfl & Heq); try lia.
      exists pts', n'. auto.
    + destruct (sep_loop_total pts n Hlen threshold pts i (Z.to_nat n) 0 sep_init)
        as (s & ->); [lia | lia | lia | lia | lia |].
      cbn [obind]. destruct (negb (maySeparate s)).
      * cbn zeta. rewrite (u32_small (n - 1)) by lia.
        destruct (rd_in_range pts (n - 1)) as (pl & -> & Hpl); [lia | lia |].
        cbn [obind]. rewrite (wr_in_range pts i pl) by lia. cbn [obind].
        rewrite u32_dec_inc by lia.
        destruct (IH (<[Z.to_nat i := pl]> pts) i (n - 1))
          as (pts' & n' & E & Hle & Hfl & Heq); try lia.
        { rewrite length_insert. lia. }
        exists pts', n'. split; [exact E|]. split; [lia|]. split; [lia|]. lia.
      * rewrite (u32_small (i + 1)) by lia.
        destruct (IH pts (i + 1) n) as (pts' & n' & E & Hle & Hfl & Heq); try lia.
        exists pts', n'. split; [exact E|]. split; [lia|]. split; [lia|]. lia.
  - apply Z.ltb_ge in Ein. exists pts, n. split; [reflexivity|].
    split; [lia|]. split; [lia|]. reflexivity.
Qed.

(** X11. The second loop of [convexSet] removes a point only while more than
    two are left: with [n1] the count after the search for duplicates, the
    returned count is between [min(n1, 2)] and [n1]. A buffer that is not
    empty is never reduced to nothing, and with at most two points after the
    search for duplicates the second loop changes nothing. *)
Theorem convexSet_keeps_two (points : list (Vec3 T)) (numPoints : Z) :
  0 <= numPoints < 4294967296 ->
  numPoints <= Z.of_nat (length points) ->
  exists pts1 n1 pts' c,
    dedup (s_mul threshold threshold) points numPoints = Ok (pts1, n1) /\
    convexSet points numPoints threshold = Ok (pts', c) /\
    Z.min n1 2 <= c <= n1 /\
    (0 < numPoints -> 1 <= c) /\
    (n1 <= 2 -> pts' = pts1 /\ c = n1).
Proof.
  intros Hn Hlen.
  destruct (dedup_bounds (s_mul threshold threshold) points numPoints Hn Hlen)
    as (pts1 & n1 & Hd & Hn1 & Hpos & Hl1).
  unfold convexSet. rewrite Hd. cbn [obind fst snd].
  destruct (extreme_outer_floor (S (Z.to_nat n1)) pts1 0 n1)
    as (pts' & c & E & Hle & Hfl & Heq); try lia.
  exists pts1, n1, pts', c. split; [reflexivity|]. split; [exact E|].
  split; [lia|]. split.
  - intros Hp. specialize (Hpos Hp). lia.
  - intros Hs. split; [apply Heq; exact Hs | lia].
Qed.
End ExtremeFew.

(** ** The radius of a sphere is not negative *)

Lemma sign_clear_not_negative (x : spec_float) :
  sign_clear x = not_negative x.
Proof. destruct x as [s|s| |s m e]; try destruct s; reflexivity. Qed.

Lemma binary_round_aux_sign (prec emax : Z) (s : bool) (m e : Z) (l : location) :
  sign_clear (binary_round_aux prec emax s m e l) = true \/
  (s = true).
Proof.
  destruct s; [right; reflexivity | left].
  unfold binary_round_aux.
  destruct (shr_fexp prec emax m e l) as [mrs' e'].
  destruct (shr_fexp prec emax _ e' loc_Exact) as [mrs'' e''].
  destruct (shr_m mrs''); try reflexivity.
  destruct (e'' <=? emax - prec)%Z; reflexivity.
Qed.

Lemma SFsqrt_sign_clear (prec emax : Z) (x : spec_float) :
  sign_clear (SFsqrt prec emax x) = true.
Proof.
  destruct x as [s|[]| |[] m e]; try reflexivity. unfold SFsqrt.
  destruct (SFsqrt_core_binary prec emax (Z.pos m) e) as [[mz ez] lz].
  destruct (binary_round_aux_sign prec emax false mz ez lz); [assumption | discriminate].
Qed.

Lemma SFmul_sign_clear (prec emax : Z) (x : spec_float) (my : positive) (ey : Z) :
  sign_clear x = true ->
  sign_clear (SFmul prec emax x (S754_finite false my ey)) = true.
Proof.
  intros Hx. destruct x as [s|s| |s m e]; simpl in *; try reflexivity.
  - destruct s; [discriminate|]. reflexivity.
  - destruct s; [discriminate|]. cbn [xorb].
    destruct (binary_round_aux_sign prec emax false (Z.pos (m * my)) (e + ey) loc_Exact);
      [assumption | discriminate].
Qed.

Lemma Sphere_2pt_radius (p0 p1 : Vec3 B32.t) :
  sign_clear (radius (Sphere_2pt p0 p1)) = true.
Proof.
  unfold Sphere_2pt, len. cbn [radius s_mul s_sqrt s_half binary32].
  change (B32.of_dyadic 1 1) with (S754_finite false 8388608 (-24)).
  apply SFmul_sign_clear. apply SFsqrt_sign_clear.
Qed.

Lemma Sphere_3pt_radius (p0 p1 p2 : Vec3 B32.t) :
  sign_clear (radius (Sphere_3pt p0 p1 p2)) = true.
Proof.
  unfold Sphere_3pt. cbn zeta.
  repeat match goal with
         | |- context [if ?c then _ else _] => destruct c
         end; try apply Sphere_2pt_radius.
  cbn [radius s_sqrt binary32]. apply SFsqrt_sign_clear.
Qed.

Lemma Sphere_4pt_radius (p0 p1 p2 p3 : Vec3 B32.t) :
  sign_clear (radius (Sphere_4pt p0 p1 p2 p3)) = true.
Proof.
  unfold Sphere_4pt. cbn zeta.
  repeat match goal with
         | |- context [if outside ?a ?b ?c then _ else _] => destruct (outside a b c)
         end; try apply Sphere_3pt_radius.
  unfold circumsphere_4pt, len. cbn [radius s_sqrt binary32]. apply SFsqrt_sign_clear.
Qed.

Lemma boundary_sphere_radius (l : list (SingleLinkedPointList B32.t)) (first b : Z)
    (r : Sphere B32.t + Sphere B32.t) :
  boundary_sphere l first b = Ok r ->
  sign_clear (radius (match r with inl s | inr s => s end)) = true.
Proof.
  unfold boundary_sphere.
  destruct b as [|[[|[]|]|[|[]|]|]|]; try discriminate.
  - destruct (rd l first) as [e0| |]; cbn [obind]; try discriminate.
    destruct (rd l (u32 (next e0))) as [e1| |]; cbn [obind]; try discriminate.
    destruct (rd l (u32 (next e1))) as [e2| |]; cbn [obind]; try discriminate.
    intros [= <-]. apply Sphere_3pt_radius.
  - destruct (rd l first) as [e0| |]; cbn [obind]; try discriminate.
    destruct (rd l (u32 (next e0))) as [e1| |]; cbn [obind]; try discriminate.
    destruct (rd l (u32 (next e1))) as [e2| |]; cbn [obind]; try discriminate.
    destruct (rd l (u32 (next e2))) as [e3| |]; cbn [obind]; try discriminate.
    intros [= <-]. apply Sphere_4pt_radius.
  - destruct (rd l first) as [e0| |]; cbn [obind]; try discriminate.
    destruct (rd l (u32 (next e0))) as [e1| |]; cbn [obind]; try discriminate.
    intros [= <-]. apply Sphere_2pt_radius.
  - destruct (rd l first) as [e0| |]; cbn [obind]; try discriminate.
    intros [= <-]. reflexivity.
Qed.

Lemma scan_step_radius (rec : mbs_fun B32.t) (b i : Z) (s s' : scan B32.t) :
  radius_ok rec -> sign_clear (radius (sc_mbs s)) = true ->
  scan_step rec b i s = Ok s' -> sign_clear (radius (sc_mbs s')) = true.
Proof.
  intros Hrec Hs. unfold scan_step.
  destruct (rd (sc_points s) (sc_it s)) as [e| |]; cbn [obind]; try discriminate.
  destruct (eiAssert _); cbn [obind]; try discriminate.
  match goal with |- (if ?c then _ else _) = _ -> _ => destruct c end.
  - destruct (set_next _ _ _) as [pts1| |]; cbn [obind]; try discriminate.
    destruct (set_next pts1 _ _) as [pts2| |]; cbn [obind]; try discriminate.
    destruct (rec _ _ _ _) as [[l' sph]| |] eqn:E3; cbn [obind]; try discriminate.
    intros [= <-]. cbn [sc_mbs snd]. exact (Hrec _ _ _ _ _ _ E3).
  - intros [= <-]. exact Hs.
Qed.

Lemma scan_loop_radius (rec : mbs_fun B32.t) (b : Z) (k : nat) :
  radius_ok rec ->
  forall i s s', sign_clear (radius (sc_mbs s)) = true ->
                 scan_loop rec b k i s = Ok s' ->
                 sign_clear (radius (sc_mbs s')) = true.
Proof.
  intros Hrec. induction k as [|k IH]; intros i s s' Hs; simpl.
  - intros [= <-]. exact Hs.
  - destruct (scan_step rec b i s) as [s1| |] eqn:E; cbn [obind]; try discriminate.
    apply IH. exact (scan_step_radius rec b i s s1 Hrec Hs E).
Qed.

Lemma mbs_body_radius (rec : mbs_fun B32.t) :
  radius_ok rec -> radius_ok (mbs_body rec).
Proof.
  intros Hrec l first n b l' s. unfold mbs_body.
  destruct (eiAssert _); cbn [obind]; try discriminate.
  destruct (boundary_sphere l first b) as [[mbs|s0]| |] eqn:Hb; cbn [obind];
    try discriminate; apply boundary_sphere_radius in Hb.
  - destruct (skip_boundary _ _ _ _) as [il| |]; cbn [obind]; try discriminate.
    destruct (scan_loop _ _ _ _ _) as [s1| |] eqn:E; cbn [obind]; try discriminate.
    intros [= <- <-].
    exact (scan_loop_radius _ _ _ Hrec _ (mkScan l first (fst il) (snd il) mbs) _ Hb E).
  - intros [= <- <-]. exact Hb.
Qed.

Lemma mbs_radius (d : nat) : radius_ok (minimalBoundingSphere d).
Proof.
  induction d as [|d IH].
  - intros l first n b l' s. discriminate.
  - apply mbs_body_radius. exact IH.
Qed.

(** X5. A sphere returned by [Sphere(points, n)] has a radius that is not
    negative: it is a NaN or compares [>= 0]. *)
Theorem Sphere_points_radius (points : list (Vec3 B32.t)) (numPoints : Z)
    (s : Sphere B32.t) :
  snd (Sphere_points points numPoints) = Ok s ->
  not_negative (radius s) = true.
Proof.
  unfold Sphere_points. cbn [snd].
  destruct (eiAssert _); cbn [obind]; try discriminate.
  destruct (build_list _ _ _) as [l0| |]; cbn [obind]; try discriminate.
  destruct (set_next _ _ _) as [l| |]; cbn [obind]; try discriminate.
  destruct (minimalBoundingSphere 4 l 0 numPoints 1) as [[l' s']| |] eqn:E;
    cbn [obind]; try discriminate.
  intros [= <-]. cbn [snd]. rewrite <- sign_clear_not_negative.
  exact (mbs_radius 4 _ _ _ _ _ _ E).
Qed.

(** ** The sides of an oriented box are not negative *)

Lemma SFabs_sign_clear (x : spec_float) : sign_clear (SFabs x) = true.
Proof. destruct x; reflexivity. Qed.

Lemma smax_sign_clear (a b : B32.t) :
  sign_clear a = true -> sign_clear b = true -> sign_clear (smax a b) = true.
Proof. intros Ha Hb. unfold smax. destruct (s_ltb b a); assumption. Qed.

Lemma box_sides_sign_clear (rotation : Mat3x3 B32.t) (bmin : Vec3 B32.t) :
  v_not_negative (box_sides rotation bmin) = true.
Proof.
  unfold v_not_negative, box_sides, vscale, vmax, vabs. cbn [vx vy vz].
  rewrite <- !sign_clear_not_negative. cbn [s_mul s_two s_abs binary32].
  change (B32.of_Z 2) with (S754_finite false 8388608 (-22)).
  rewrite !andb_true_iff.
  repeat split; apply SFmul_sign_clear;
    repeat apply smax_sign_clear; apply SFabs_sign_clear.
Qed.

(** X12. Whatever the orientation and the box, no side of the oriented box
    built by [OBox(orientation, box)] is negative: each is a NaN or compares
    [>= 0], for the constructor from a quaternion and for the one from a
    matrix. *)
Theorem OBox_sides_not_negative {Q : Type} (to_mat : Q -> Mat3x3 B32.t)
    (to_quat : Mat3x3 B32.t -> Q) (q : Q) (m : Mat3x3 B32.t) (box : Box B32.t) :
  v_not_negative (ob_sides (OBox_quat_box to_mat q box)) = true /\
  v_not_negative (ob_sides (OBox_mat_box to_quat m box)) = true.
Proof.
  split; unfold OBox_quat_box, OBox_mat_box; cbn [ob_sides];
    apply box_sides_sign_clear.
Qed.

(** ** Further runs on concrete inputs *)

(** X3 on the points (0,0,0), (1,0,0), (3,0,0), (7,0,0). *)
Lemma Sphere_points_four_chain_faults_witness :
  beyond (mkSphere (Inputs.vi 0 0 0) s_zero) (Inputs.vi 1 0 0) = true /\
  beyond (Sphere_2pt (Inputs.vi 1 0 0) (Inputs.vi 0 0 0)) (Inputs.vi 3 0 0) = true /\
  beyond (Sphere_2pt (Inputs.vi 3 0 0) (Inputs.vi 1 0 0)) (Inputs.vi 7 0 0) = true /\
  snd (Sphere_points MoreInputs.chain 4) = Fault OutOfBounds.
Proof.
  split; [vm_compute; reflexivity|]. split; [vm_compute; reflexivity|].
  split; [vm_compute; reflexivity|].
  apply (Sphere_points_four_chain_faults (Inputs.vi 0 0 0) (Inputs.vi 1 0 0)
           (Inputs.vi 3 0 0) (Inputs.vi 7 0 0)); vm_compute; reflexivity.
Defined.

(** X4 on the first two points of the right triangle. *)
Lemma Sphere_points_reads_prefix_witness :
  0 <= 2 < 4294967296 /\
  snd (Sphere_points (take (Z.to_nat 2) Inputs.triangle) 2)
  = snd (Sphere_points Inputs.triangle 2).
Proof.
  split; [lia|]. apply (Sphere_points_reads_prefix Inputs.triangle 2). lia.
Defined.

(** X5 on the right triangle. *)
Lemma Sphere_points_radius_witness :
  snd (Sphere_points Inputs.triangle 3)
  = Ok (mkSphere (mkVec3 (B32.of_Z 4) (B32.of_dyadic 3 1) (B32.of_Z 0))
                 (B32.of_dyadic 3 1)) /\
  not_negative (B32.of_dyadic 3 1) = true.
Proof.
  split; [vm_compute; reflexivity|].
  apply (Sphere_points_radius Inputs.triangle 3
           (mkSphere (mkVec3 (B32.of_Z 4) (B32.of_dyadic 3 1) (B32.of_Z 0))
                     (B32.of_dyadic 3 1))).
  vm_compute; reflexivity.
Defined.

(** X6 on five points. *)
Lemma Box_points_contains_witness :
  0 < 5 < 4294967296 /\
  5 <= Z.of_nat (length Inputs.five) /\
  exists b : Box B32.t,
    Box_points Inputs.five 5 = Ok b /\
    vle (box_min b) (box_max b) = true /\
    forall (j : nat) (q : Vec3 B32.t),
      (j < Z.to_nat 5)%nat -> Inputs.five !! j = Some q ->
      vle (box_min b) q = true /\ vle q (box_max b) = true.
Proof.
  split; [lia|]. split; [cbn; lia|].
  apply (Box_points_contains Inputs.five 5); [lia | cbn; lia |].
  intros j q Hj Hq.
  destruct j as [|[|[|[|[|j]]]]]; cbn in Hq; try discriminate;
    injection Hq as <-; reflexivity.
Defined.

(** X7 on the same five points: the box from (0,0,0) to (32,32,12). *)
Lemma Box_points_tight_witness :
  5 < 4294967296 /\
  Box_points Inputs.five 5 = Ok (mkBox (Inputs.vi 0 0 0) (Inputs.vi 32 32 12)) /\
  all_picked Inputs.five 0 (Z.to_nat 5) (Inputs.vi 0 0 0) /\
  all_picked Inputs.five 0 (Z.to_nat 5) (Inputs.vi 32 32 12).
Proof.
  split; [lia|]. split; [vm_compute; reflexivity|].
  apply (Box_points_tight Inputs.five 5
           (mkBox (Inputs.vi 0 0 0) (Inputs.vi 32 32 12))); [lia|].
  vm_compute; reflexivity.
Defined.

(** X8 on five points with the threshold 2. *)
Lemma convexSet_frame_witness :
  0 <= 4 < 4294967296 /\
  4 <= Z.of_nat (length Inputs.five) /\
  exists pts' c,
    convexSet Inputs.five 4 (B32.of_Z 2) = Ok (pts', c) /\
    length pts' = length Inputs.five /\
    forall k : nat, (Z.to_nat 4 <= k)%nat -> pts' !! k = Inputs.five !! k.
Proof.
  split; [lia|]. split; [cbn; lia|].
  apply (convexSet_frame Inputs.five 4 (B32.of_Z 2)); [lia | cbn; lia].
Defined.

(** X9 on five points with the threshold 2. *)
Lemma convexSet_submultiset_witness :
  0 <= 5 < 4294967296 /\
  5 <= Z.of_nat (length Inputs.five) /\
  exists pts' c,
    convexSet Inputs.five 5 (B32.of_Z 2) = Ok (pts', c) /\
    take (Z.to_nat c) pts' ⊆+ take (Z.to_nat 5) Inputs.five.
Proof.
  split; [lia|]. split; [cbn; lia|].
  apply (convexSet_submultiset Inputs.five 5 (B32.of_Z 2)); [lia | cbn; lia].
Defined.

(** X10 on four points of which two are one unit apart, with [tSq = 4]. *)
Lemma dedup_separates_witness :
  0 <= 4 < 4294967296 /\
  4 <= Z.of_nat (length Inputs.close_pair) /\
  exists pts' n',
    dedup (B32.of_Z 4) Inputs.close_pair 4 = Ok (pts', n') /\
    (forall (i j : nat) (pi pj : Vec3 B32.t),
        (i < j < Z.to_nat n')%nat ->
        pts' !! i = Some pi -> pts' !! j = Some pj ->
        near_dup (B32.of_Z 4) pi pj = false) /\
    dedup (B32.of_Z 4) pts' n' = Ok (pts', n') /\
    (0 < 4 -> 0 < n' /\ pts' !! 0%nat = Inputs.close_pair !! 0%nat).
Proof.
  split; [lia|]. split; [cbn; lia|].
  apply (dedup_separates (B32.of_Z 4) Inputs.close_pair 4); [lia | cbn; lia].
Defined.

(** X11 on five points with the threshold 2. *)
Lemma convexSet_keeps_two_witness :
  0 <= 5 < 4294967296 /\
  5 <= Z.of_nat (length Inputs.five) /\
  exists pts1 n1 pts' c,
    dedup (s_mul (B32.of_Z 2) (B32.of_Z 2)) Inputs.five 5 = Ok (pts1, n1) /\
    convexSet Inputs.five 5 (B32.of_Z 2) = Ok (pts', c) /\
    Z.min n1 2 <= c <= n1 /\
    (0 < 5 -> 1 <= c) /\
    (n1 <= 2 -> pts' = pts1 /\ c = n1).
Proof.
  split; [lia|]. split; [cbn; lia|].
  apply (convexSet_keeps_two (B32.of_Z 2) Inputs.five 5); [lia | cbn; lia].
Defined.
